(** * Trust score aggregation engine of backend/ai-trust-score.py

    A shallow embedding of the scoring code of the freelancer trust score
    service, and the properties its specification states about it.

    Conventions of the embedding.
    - Python [float] values are read as real numbers ([R]): [math.exp] is
      [exp], [min]/[max] are [Rmin]/[Rmax], and [round(x, n)] is rounding
      to the nearest multiple of [10^-n], ties to the even multiple.
      Overflow (the range error [math.exp] raises above an exponent of
      about 709.78), underflow and the binary representation of floats
      are outside this model.
    - Python [int] values are [Z]; [len] is [length] (a [nat]).
    - The module-level constants read from the process environment
      ([TIME_DECAY_FACTOR], [SENTIMENT_WEIGHT], ...) are the fields of a
      [Config] record; [default_config] holds the defaults of the source.
    - The wall clock ([time.time()], [datetime.now()]) is an oracle indexed
      by the number of clock reads made so far; that counter and the trace
      of calls to the sentiment adapter form the [World] that every
      operation threads.
    - A Python exception is the [Raise] outcome of the [Exc] type. *)

From Stdlib Require Import Reals Lra Lia ZArith Ascii String List.
From stdpp Require Import base gmap sets list strings.

#[local] Set Warnings "-clear-no-such-hyp".

Local Open Scope Z_scope.

(** ** Configuration constants (source lines 96-102) *)

Record Config : Type := mkConfig {
  TIME_DECAY_FACTOR : R;
  SENTIMENT_WEIGHT : R;
  VERIFIED_CLIENT_WEIGHT : R;
  UNVERIFIED_CLIENT_WEIGHT : R
}.

(** [TIME_UNIT = 60 * 60 * 24 * 30], thirty days in seconds. *)
Definition TIME_UNIT : Z := 60 * 60 * 24 * 30.

(** The values taken when the environment sets none of the variables. *)
Definition default_config : Config :=
  {| TIME_DECAY_FACTOR := 5 / 100;
     SENTIMENT_WEIGHT := 3 / 10;
     VERIFIED_CLIENT_WEIGHT := 15 / 10;
     UNVERIFIED_CLIENT_WEIGHT := 8 / 10 |}.

(** ** Data model (source lines 104-124) *)

Record Review : Type := mkReview {
  client_address : string;
  client_verified : bool;
  rating : Z;
  comment : string;
  timestamp : Z
}.

(** [rating: int = Field(..., ge=1, le=5)]: the constraint pydantic checks
    when a [Review] is constructed. *)
Definition rating_valid (r : Review) : bool :=
  (1 <=? rating r) && (rating r <=? 5).

(** ** Rounding: Python's [round(x, ndigits)] on the reals *)

(** The integer nearest to [x], a tie going to the even neighbour. *)
Definition round_half_even (x : R) : Z :=
  let f := Int_part x in
  let d := (x - IZR f)%R in
  if Rlt_dec d (1 / 2) then f
  else if Rlt_dec (1 / 2) d then f + 1
  else if Z.even f then f else f + 1.

Definition round (x : R) (ndigits : nat) : R :=
  (IZR (round_half_even (x * 10 ^ ndigits)) / 10 ^ ndigits)%R.

(** ** Decay function (source lines 205-217) *)

(** The arithmetic of [calculate_time_decay] once [current_time] is read:
    the value of its local [decay_factor]. *)
Definition decay_factor (cfg : Config) (current_time timestamp : Z) : R :=
  let age_in_seconds := current_time - timestamp in
  let age_in_units := (IZR age_in_seconds / IZR TIME_UNIT)%R in
  exp (- TIME_DECAY_FACTOR cfg * age_in_units).

(** ** Exceptions, the world and the monad of the engine *)

(** The exceptions that occur: [IndexError] from [xs[0]] on an empty
    list, [ModelError] for whatever the classification pipeline raises,
    [OverflowError] from a date conversion out of range, and the
    [HTTPException] of the API-key gate. All are subclasses of
    [Exception]. *)
Inductive PyExc : Type :=
| IndexError
| ModelError (msg : string)
| OverflowError
| HTTPException (status_code : Z) (detail : string).

Inductive Exc (A : Type) : Type :=
| Ok (a : A)
| Raise (e : PyExc).
Arguments Ok {A} a.
Arguments Raise {A} e.

(** What an invocation can observe and change outside its arguments: how
    many times the clock has been read, and which texts were handed to
    [analyze_sentiment], oldest first. *)
Record World : Type := mkWorld {
  clock_reads : nat;
  sentiment_calls : list string
}.

Definition M (A : Type) : Type := World -> Exc A * World.

Definition ret {A : Type} (a : A) : M A := fun w => (Ok a, w).

Definition raise {A : Type} (e : PyExc) : M A := fun w => (Raise e, w).

Definition bind {A B : Type} (m : M A) (k : A -> M B) : M B :=
  fun w =>
    match m w with
    | (Ok a, w') => k a w'
    | (Raise e, w') => (Raise e, w')
    end.

(** [try: body  except Exception as e: handler e]; every [PyExc] is an
    instance of Python's [Exception]. *)
Definition try_except {A : Type} (body : M A) (handler : PyExc -> M A) : M A :=
  fun w =>
    match body w with
    | (Ok a, w') => (Ok a, w')
    | (Raise e, w') => handler e w'
    end.

Definition lift {A : Type} (x : Exc A) : M A := fun w => (x, w).

Notation "'let*' x ':=' m 'in' k" := (bind m (fun x => k))
  (at level 10, x name, m at level 100, k at level 200).

(** [for x in xs: acc = body acc x], the accumulator threaded through. *)
Fixpoint for_each {A S : Type} (body : S -> A -> M S) (xs : list A) (acc : S) : M S :=
  match xs with
  | [] => ret acc
  | x :: xs' => bind (body acc x) (fun acc' => for_each body xs' acc')
  end.

(** Truth value of a Python [str]: the empty string is falsy. *)
Definition str_truthy (s : string) : bool :=
  match s with
  | EmptyString => false
  | String _ _ => true
  end.

(** One prediction of the classification pipeline:
    [{'label': ..., 'score': ...}]. *)
Record Prediction : Type := mkPrediction {
  pred_label : string;
  pred_score : R
}.

(** The collaborators of the engine: its configuration, the sentiment
    pipeline ([None] when the model failed to load; calling it returns a
    list of predictions or raises), and the clock. *)
Record Env : Type := mkEnv {
  config : Config;
  sentiment_analyzer : option (string -> Exc (list Prediction));
  time_time : nat -> Z;
  datetime_now_isoformat : nat -> string;
  datetime_fromtimestamp_isoformat : Z -> Exc string
}.

(** The dict [calculate_trust_score] returns (source lines 229-237 and
    282-290). *)
Module TrustScore.
Record t : Type := mk {
  score : R;
  confidence : R;
  review_count : nat;
  average_rating : R;
  sentiment_adjustment : R;
  recency_factor : R;
  calculation_time : string
}.
End TrustScore.

(** The local variables of [calculate_trust_score] on its main path, as
    they stand when the result dict is built. *)
Module Locals.
Record t : Type := mk {
  weighted_rating : R;
  average_sentiment : R;
  sentiment_adjustment : R;
  adjusted_rating : R;
  trust_score : R;
  confidence : R;
  avg_decay : R
}.
End Locals.

(** The three running sums of the scoring loop. *)
Record Sums : Type := mkSums {
  weighted_sum : R;
  weight_sum : R;
  sentiment_sum : R
}.

(** One entry of the [reviews] list of the analysis endpoint. *)
Module Analyzed.
Record t : Type := mk {
  client_address : string;
  client_verified : bool;
  rating : Z;
  comment : string;
  timestamp : Z;
  datetime : string;
  sentiment_score : R;
  time_decay_factor : R;
  effective_weight : R
}.
End Analyzed.

(** The [analysis] dict of the analysis endpoint. *)
Module Analysis.
Record t : Type := mk {
  review_count : nat;
  average_rating : R;
  average_sentiment : R;
  verified_client_percentage : R
}.
End Analysis.

(** The response of the analysis endpoint; [analysis = None] stands for
    the empty dict [{}] of the no-review branch. *)
Module Response.
Record t : Type := mk {
  address : string;
  reviews : list Analyzed.t;
  analysis : option Analysis.t
}.
End Response.

Section Engine.
Variable env : Env.

(** *** Clock reads *)

Definition tick (w : World) : World :=
  {| clock_reads := S (clock_reads w); sentiment_calls := sentiment_calls w |}.

(** [int(time.time())] *)
Definition read_time : M Z :=
  fun w => (Ok (time_time env (clock_reads w)), tick w).

(** [datetime.now().isoformat()] *)
Definition read_datetime_now : M string :=
  fun w => (Ok (datetime_now_isoformat env (clock_reads w)), tick w).

Definition note_call (text : string) (w : World) : World :=
  {| clock_reads := clock_reads w; sentiment_calls := sentiment_calls w ++ [text] |}.

(** Entering [analyze_sentiment text] is recorded in the world. *)
Definition record_sentiment_call (text : string) : M unit :=
  fun w => (Ok tt, note_call text w).

(** *** Sentiment adapter (source lines 178-202) *)

(** [xs[0]] on a Python list. *)
Definition first_item {A : Type} (xs : list A) : M A :=
  match xs with
  | [] => raise IndexError
  | x :: _ => ret x
  end.

Definition analyze_sentiment (text : string) : M R :=
  let* _ := record_sentiment_call text in
  match sentiment_analyzer env with
  | None => ret 0%R
  | Some analyzer =>
    if negb (str_truthy text) then ret 0%R
    else
      try_except
        (let truncated_text := substring 0 512 text in
         let* predictions := lift (analyzer truncated_text) in
         let* result := first_item predictions in
         if String.eqb (pred_label result) "POSITIVE"
         then ret (pred_score result)
         else ret (- pred_score result)%R)
        (fun e => ret 0%R)
  end.

(** *** Decay function (source lines 205-217) *)

Definition calculate_time_decay (timestamp : Z) : M R :=
  let* current_time := read_time in
  ret (decay_factor (config env) current_time timestamp).

(** *** Aggregation (source lines 220-290) *)

Definition client_weight_of (verified : bool) : R :=
  if verified then VERIFIED_CLIENT_WEIGHT (config env) else UNVERIFIED_CLIENT_WEIGHT (config env).

(** Body of the loop of lines 243-258. *)
Definition accumulate_review (acc : Sums) (review : Review) : M Sums :=
  let* time_weight := calculate_time_decay (timestamp review) in
  let client_weight := client_weight_of (client_verified review) in
  let total_weight := (time_weight * client_weight)%R in
  let weighted_sum' := (weighted_sum acc + IZR (rating review) * total_weight)%R in
  let weight_sum' := (weight_sum acc + total_weight)%R in
  if str_truthy (comment review) then
    let* sentiment_score := analyze_sentiment (comment review) in
    ret {| weighted_sum := weighted_sum';
           weight_sum := weight_sum';
           sentiment_sum := (sentiment_sum acc + sentiment_score * total_weight)%R |}
  else
    ret {| weighted_sum := weighted_sum';
           weight_sum := weight_sum';
           sentiment_sum := sentiment_sum acc |}.

(** [sum(calculate_time_decay(r.timestamp) for r in reviews)] *)
Definition sum_time_decay (reviews : list Review) : M R :=
  for_each (fun acc r => let* d := calculate_time_decay (timestamp r) in
                         ret (acc + d)%R) reviews 0%R.

(** Lines 239-280: everything between the empty-input test and the
    construction of the result. *)
Definition score_locals (reviews : list Review) : M Locals.t :=
  let* sums := for_each accumulate_review reviews
                 {| weighted_sum := 0; weight_sum := 0; sentiment_sum := 0 |} in
  let weighted_rating :=
    if Rlt_dec 0 (weight_sum sums) then (weighted_sum sums / weight_sum sums)%R else 3%R in
  let average_sentiment :=
    if Rlt_dec 0 (weight_sum sums) then (sentiment_sum sums / weight_sum sums)%R else 0%R in
  let sentiment_adjustment := (average_sentiment * SENTIMENT_WEIGHT (config env))%R in
  let adjusted_rating := Rmin 5 (Rmax 1 (weighted_rating + sentiment_adjustment)) in
  let trust_score := ((adjusted_rating - 1) * 25)%R in
  let confidence := Rmin 1 (INR (length reviews) / 10) in
  let* decay_total := sum_time_decay reviews in
  let avg_decay := (decay_total / INR (length reviews))%R in
  ret {| Locals.weighted_rating := weighted_rating;
         Locals.average_sentiment := average_sentiment;
         Locals.sentiment_adjustment := sentiment_adjustment;
         Locals.adjusted_rating := adjusted_rating;
         Locals.trust_score := trust_score;
         Locals.confidence := confidence;
         Locals.avg_decay := avg_decay |}.

Definition calculate_trust_score (reviews : list Review) : M TrustScore.t :=
  match reviews with
  | [] =>
    let* now := read_datetime_now in
    ret {| TrustScore.score := 50;
           TrustScore.confidence := 0;
           TrustScore.review_count := 0;
           TrustScore.average_rating := 0;
           TrustScore.sentiment_adjustment := 0;
           TrustScore.recency_factor := 1;
           TrustScore.calculation_time := now |}
  | _ :: _ =>
    let* l := score_locals reviews in
    let* now := read_datetime_now in
    ret {| TrustScore.score := round (Locals.trust_score l) 1;
           TrustScore.confidence := round (Locals.confidence l) 2;
           TrustScore.review_count := length reviews;
           TrustScore.average_rating := round (Locals.weighted_rating l) 2;
           TrustScore.sentiment_adjustment := round (Locals.sentiment_adjustment l) 2;
           TrustScore.recency_factor := round (Locals.avg_decay l) 2;
           TrustScore.calculation_time := now |}
  end.
End Engine.

(** ** Merge of the two review sources (source lines 331-344)

    The part of [get_trust_score] between the two fetches and the call of
    [calculate_trust_score]; [blockchain_reviews] and [api_reviews] are the
    lists the fetches returned. *)

(** First loop: every blockchain review is appended and its client seen. *)
Definition add_blockchain_review (st : list Review * gset string) (review : Review)
  : list Review * gset string :=
  let '(combined_reviews, seen_clients) := st in
  (combined_reviews ++ [review], seen_clients ∪ {[ client_address review ]}).

(** Second loop: an API review is appended only if its client is unseen. *)
Definition add_api_review (st : list Review * gset string) (review : Review)
  : list Review * gset string :=
  let '(combined_reviews, seen_clients) := st in
  if bool_decide (client_address review ∈ seen_clients)
  then (combined_reviews, seen_clients)
  else (combined_reviews ++ [review], seen_clients ∪ {[ client_address review ]}).

Definition combine_reviews (blockchain_reviews api_reviews : list Review) : list Review :=
  let st0 : list Review * gset string := ([], ∅) in
  let st1 := fold_left add_blockchain_review blockchain_reviews st0 in
  let st2 := fold_left add_api_review api_reviews st1 in
  fst st2.

(** ** Per-review analysis endpoint (source lines 363-424) *)

(** [required_api_key and api_key != required_api_key] *)
Definition api_key_rejected (required_api_key api_key : option string) : bool :=
  match required_api_key with
  | None => false
  | Some k => str_truthy k && negb (bool_decide (api_key = Some k))
  end.

Section Analysis.
Variable env : Env.

(** Body of the loop of lines 389-406. *)
Definition analyze_one (analyzed_reviews : list Analyzed.t) (review : Review)
  : M (list Analyzed.t) :=
  let* sentiment_score := analyze_sentiment env (comment review) in
  let* time_decay := calculate_time_decay env (timestamp review) in
  let* dt := lift (datetime_fromtimestamp_isoformat env (timestamp review)) in
  ret (analyzed_reviews ++
       [ {| Analyzed.client_address := client_address review;
            Analyzed.client_verified := client_verified review;
            Analyzed.rating := rating review;
            Analyzed.comment := comment review;
            Analyzed.timestamp := timestamp review;
            Analyzed.datetime := dt;
            Analyzed.sentiment_score := round sentiment_score 2;
            Analyzed.time_decay_factor := round time_decay 2;
            Analyzed.effective_weight :=
              round (time_decay * client_weight_of env (client_verified review)) 2 |} ]).

(** [sum(r.rating for r in combined_reviews)] *)
Definition sum_ratings (reviews : list Review) : Z :=
  fold_left (fun acc r => acc + rating r) reviews 0.

(** [sum(analyze_sentiment(r.comment) for r in combined_reviews)] *)
Definition sum_sentiment (reviews : list Review) : M R :=
  for_each (fun acc r => let* s := analyze_sentiment env (comment r) in
                         ret (acc + s)%R) reviews 0%R.

(** [sum(1 for r in combined_reviews if r.client_verified)] *)
Definition count_verified (reviews : list Review) : Z :=
  fold_left (fun acc r => if client_verified r then acc + 1 else acc) reviews 0.

(** The endpoint, from the API-key gate on; [required_api_key] is the
    value of [os.getenv("REQUIRED_API_KEY")], [blockchain_reviews] and
    [api_reviews] are what the two fetches returned. *)
Definition analyze_reviews (required_api_key : option string)
    (address : string) (api_key : option string)
    (blockchain_reviews api_reviews : list Review) : M Response.t :=
  if api_key_rejected required_api_key api_key
  then raise (HTTPException 401 "Invalid or missing API key")
  else
    let combined_reviews := blockchain_reviews ++ api_reviews in
    match combined_reviews with
    | [] => ret {| Response.address := address;
                   Response.reviews := [];
                   Response.analysis := None |}
    | _ :: _ =>
      let* analyzed_reviews := for_each analyze_one combined_reviews [] in
      let avg_rating := (IZR (sum_ratings combined_reviews)
                         / INR (length combined_reviews))%R in
      let* sentiment_total := sum_sentiment combined_reviews in
      let avg_sentiment := (sentiment_total / INR (length combined_reviews))%R in
      ret {| Response.address := address;
             Response.reviews := analyzed_reviews;
             Response.analysis := Some
               {| Analysis.review_count := length analyzed_reviews;
                  Analysis.average_rating := round avg_rating 2;
                  Analysis.average_sentiment := round avg_sentiment 2;
                  Analysis.verified_client_percentage :=
                    round (IZR (count_verified combined_reviews)
                           / INR (length combined_reviews) * 100) 1 |} |}
    end.
End Analysis.

(** ** Derived notions used to state the properties *)

(** The world before anything has happened. *)
Definition initial_world : World := {| clock_reads := 0; sentiment_calls := [] |}.

(** The polarity the adapter gives a text: what [analyze_sentiment]
    returns for it ([analyze_sentiment_run] shows that the world it is
    called in does not matter). *)
Definition polarity (env : Env) (text : string) : R :=
  match fst (analyze_sentiment env text initial_world) with
  | Ok v => v
  | Raise _ => 0%R
  end.


(** *** The aggregation without the monad

    What the two loops of [calculate_trust_score] compute when the clock
    has been read [k] times before: the lemmas of section [Runs] show that
    the monadic code returns exactly these values. *)

Section Denotation.
Variable env : Env.

(** [total_weight] of a review when [current_time] is [now]. *)
Definition review_weight (now : Z) (r : Review) : R :=
  (decay_factor (config env) now (timestamp r)
   * client_weight_of env (client_verified r))%R.

(** The sums after one more review. *)
Definition add_review (now : Z) (acc : Sums) (r : Review) : Sums :=
  {| weighted_sum := weighted_sum acc + IZR (rating r) * review_weight now r;
     weight_sum := weight_sum acc + review_weight now r;
     sentiment_sum :=
       if str_truthy (comment r)
       then sentiment_sum acc + polarity env (comment r) * review_weight now r
       else sentiment_sum acc |}%R.

(** The sums after the scoring loop. *)
Fixpoint run_sums (k : nat) (reviews : list Review) (acc : Sums) : Sums :=
  match reviews with
  | [] => acc
  | r :: rs => run_sums (S k) rs (add_review (time_time env k) acc r)
  end.

(** The total of the recency pass. *)
Fixpoint run_decay_total (k : nat) (reviews : list Review) (acc : R) : R :=
  match reviews with
  | [] => acc
  | r :: rs =>
    run_decay_total (S k) rs
      (acc + decay_factor (config env) (time_time env k) (timestamp r))%R
  end.

(** The world after a loop that reads the clock once per review. *)
Definition after_reads (n : nat) (w : World) : World :=
  {| clock_reads := clock_reads w + n; sentiment_calls := sentiment_calls w |}.

(** The world after the scoring loop. *)
Definition after_scoring (reviews : list Review) (w : World) : World :=
  {| clock_reads := clock_reads w + length reviews;
     sentiment_calls :=
       sentiment_calls w ++ List.filter str_truthy (map comment reviews) |}.

(** The locals of [calculate_trust_score] from the loop results. *)
Definition locals_of_sums (sums : Sums) (n : nat) (decay_total : R) : Locals.t :=
  let weighted_rating :=
    if Rlt_dec 0 (weight_sum sums) then (weighted_sum sums / weight_sum sums)%R else 3%R in
  let average_sentiment :=
    if Rlt_dec 0 (weight_sum sums) then (sentiment_sum sums / weight_sum sums)%R else 0%R in
  let sentiment_adjustment := (average_sentiment * SENTIMENT_WEIGHT (config env))%R in
  let adjusted_rating := Rmin 5 (Rmax 1 (weighted_rating + sentiment_adjustment)) in
  {| Locals.weighted_rating := weighted_rating;
     Locals.average_sentiment := average_sentiment;
     Locals.sentiment_adjustment := sentiment_adjustment;
     Locals.adjusted_rating := adjusted_rating;
     Locals.trust_score := (adjusted_rating - 1) * 25;
     Locals.confidence := Rmin 1 (INR n / 10);
     Locals.avg_decay := decay_total / INR n |}%R.

Definition zero_sums : Sums :=
  {| weighted_sum := 0; weight_sum := 0; sentiment_sum := 0 |}.

(** The locals when the aggregation starts after [k] clock reads. *)
Definition locals_at (k : nat) (reviews : list Review) : Locals.t :=
  locals_of_sums (run_sums k reviews zero_sums) (length reviews)
    (run_decay_total (k + length reviews) reviews 0).

(** The result dict built from the locals (source lines 282-290). *)
Definition result_of_locals (l : Locals.t) (n : nat) (now : string) : TrustScore.t :=
  {| TrustScore.score := round (Locals.trust_score l) 1;
     TrustScore.confidence := round (Locals.confidence l) 2;
     TrustScore.review_count := n;
     TrustScore.average_rating := round (Locals.weighted_rating l) 2;
     TrustScore.sentiment_adjustment := round (Locals.sentiment_adjustment l) 2;
     TrustScore.recency_factor := round (Locals.avg_decay l) 2;
     TrustScore.calculation_time := now |}.
End Denotation.

(** ** Assumptions on the collaborators and sample data *)

(** The contract of the classification pipeline: a prediction carries a
    probability as its score. *)
Definition pipeline_scores_in_unit (env : Env) : Prop :=
  forall analyzer text predictions,
    sentiment_analyzer env = Some analyzer ->
    analyzer text = Ok predictions ->
    Forall (fun p => 0 <= pred_score p <= 1)%R predictions.

(** Both client weights are positive and the sentiment weight is not
    negative, as in [default_config]. *)
Definition weights_positive (cfg : Config) : Prop :=
  (0 < VERIFIED_CLIENT_WEIGHT cfg /\ 0 < UNVERIFIED_CLIENT_WEIGHT cfg
   /\ 0 <= SENTIMENT_WEIGHT cfg)%R.

(** A pipeline that finds every text entirely positive. *)
Definition always_positive (text : string) : Exc (list Prediction) :=
  Ok [ {| pred_label := "POSITIVE"; pred_score := 1 |} ].

(** A pipeline that fails on every text. *)
Definition always_failing (text : string) : Exc (list Prediction) :=
  Raise (ModelError "model unavailable").

(** An environment with the default configuration, the given pipeline and
    a clock that stands still at 1700000000 (14 November 2023). *)
Definition sample_env (analyzer : option (string -> Exc (list Prediction))) : Env :=
  {| config := default_config;
     sentiment_analyzer := analyzer;
     time_time := fun _ => 1700000000;
     datetime_now_isoformat := fun _ => "2023-11-14T22:13:20";
     datetime_fromtimestamp_isoformat := fun _ => Ok "2023-11-14T22:13:20" |}.

(** A verified five-star review written at the instant of the clock. *)
Definition review_now : Review :=
  {| client_address := "0xA1"; client_verified := true; rating := 5;
     comment := EmptyString; timestamp := 1700000000 |}.

(** A review dated 20 time units (600 days) after the clock. *)
Definition review_future : Review :=
  {| client_address := "0xB2"; client_verified := false; rating := 4;
     comment := EmptyString; timestamp := 1700000000 + 20 * TIME_UNIT |}.

(** A review dated 160 time units (about 13 years) before the clock. *)
Definition review_old : Review :=
  {| client_address := "0xC3"; client_verified := false; rating := 3;
     comment := EmptyString; timestamp := 1700000000 - 160 * TIME_UNIT |}.

(** A one-star and a five-star review, both unverified, without comment
    and written now. *)
Definition review_one_star : Review :=
  {| client_address := "0xE5"; client_verified := false; rating := 1;
     comment := EmptyString; timestamp := 1700000000 |}.

Definition review_five_star : Review :=
  {| client_address := "0xE6"; client_verified := false; rating := 5;
     comment := EmptyString; timestamp := 1700000000 |}.

(** A three-star review with a comment. *)
Definition review_commented : Review :=
  {| client_address := "0xD4"; client_verified := true; rating := 3;
     comment := "great work"; timestamp := 1700000000 |}.

(** What the scoring loop maintains under these assumptions: the weights
    add up to something not negative that dominates the sentiment sum. *)
Definition sums_ok (acc : Sums) : Prop :=
  (0 <= weight_sum acc /\ Rabs (sentiment_sum acc) <= weight_sum acc)%R.

(** ** The merge as a list function, and sample reviews for it *)

(** What the second loop of the merge appends when [seen] holds the
    clients seen so far. *)
Fixpoint keep_unseen (seen : gset string) (reviews : list Review) : list Review :=
  match reviews with
  | [] => []
  | r :: rs =>
    if bool_decide (client_address r ∈ seen)
    then keep_unseen seen rs
    else r :: keep_unseen (seen ∪ {[ client_address r ]}) rs
  end.

(** Two blockchain reviews by the same client ["x"]. *)
Definition chain_x_first : Review :=
  {| client_address := "x"; client_verified := true; rating := 5;
     comment := "on chain"; timestamp := 1690000000 |}.

Definition chain_x_second : Review :=
  {| client_address := "x"; client_verified := true; rating := 1;
     comment := "on chain again"; timestamp := 1695000000 |}.

(** API reviews by ["x"] and, twice, by ["y"]. *)
Definition api_x : Review :=
  {| client_address := "x"; client_verified := false; rating := 2;
     comment := "from the API"; timestamp := 1699000000 |}.

Definition api_y_first : Review :=
  {| client_address := "y"; client_verified := false; rating := 4;
     comment := "fine"; timestamp := 1698000000 |}.

Definition api_y_second : Review :=
  {| client_address := "y"; client_verified := false; rating := 2;
     comment := "changed my mind"; timestamp := 1699500000 |}.

(** ** The analysis view without the monad, and its summary as the
    specification words it *)

Section AnalysisDenotation.
Variable env : Env.

(** The ISO date of a timestamp when the conversion succeeds. *)
Definition datetime_of (ts : Z) : string :=
  match datetime_fromtimestamp_isoformat env ts with
  | Ok dt => dt
  | Raise _ => EmptyString
  end.

(** The entry built for review [r] when [current_time] is [now]. *)
Definition analyzed_at (now : Z) (r : Review) : Analyzed.t :=
  {| Analyzed.client_address := client_address r;
     Analyzed.client_verified := client_verified r;
     Analyzed.rating := rating r;
     Analyzed.comment := comment r;
     Analyzed.timestamp := timestamp r;
     Analyzed.datetime := datetime_of (timestamp r);
     Analyzed.sentiment_score := round (polarity env (comment r)) 2;
     Analyzed.time_decay_factor :=
       round (decay_factor (config env) now (timestamp r)) 2;
     Analyzed.effective_weight :=
       round (decay_factor (config env) now (timestamp r)
              * client_weight_of env (client_verified r)) 2 |}.

(** The entries of the analysis loop started after [k] clock reads. *)
Fixpoint run_entries (k : nat) (reviews : list Review) : list Analyzed.t :=
  match reviews with
  | [] => []
  | r :: rs => analyzed_at (time_time env k) r :: run_entries (S k) rs
  end.

(** The world after the analysis loop: one adapter call and one clock
    read per review. *)
Definition after_analysis (reviews : list Review) (w : World) : World :=
  {| clock_reads := clock_reads w + length reviews;
     sentiment_calls := sentiment_calls w ++ map comment reviews |}.

(** The world after the sentiment total: one adapter call per review. *)
Definition after_sentiments (reviews : list Review) (w : World) : World :=
  {| clock_reads := clock_reads w;
     sentiment_calls := sentiment_calls w ++ map comment reviews |}.

(** Plain sums and means. *)
Definition sum_Z (xs : list Z) : Z := fold_right Z.add 0 xs.

Definition sum_R (xs : list R) : R := fold_right Rplus 0%R xs.

(** Unweighted mean of the ratings. *)
Definition mean_rating (reviews : list Review) : R :=
  (IZR (sum_Z (map rating reviews)) / INR (length reviews))%R.

(** Unweighted mean of the polarities of the comments. *)
Definition mean_sentiment (reviews : list Review) : R :=
  (sum_R (map (fun r => polarity env (comment r)) reviews) / INR (length reviews))%R.

(** Share of the reviews by verified clients, in percent. *)
Definition verified_percentage (reviews : list Review) : R :=
  (INR (length (List.filter client_verified reviews)) / INR (length reviews) * 100)%R.
End AnalysisDenotation.

(** ** Further notions for the aggregation *)

(** The review with its comment removed. *)
Definition strip_comment (r : Review) : Review :=
  {| client_address := client_address r;
     client_verified := client_verified r;
     rating := rating r;
     comment := EmptyString;
     timestamp := timestamp r |}.

(** The weighted sum of the ratings stays between [lo] and [hi] times the
    sum of the weights, which is not negative. *)
Definition rating_sums_between (lo hi : Z) (acc : Sums) : Prop :=
  (0 <= weight_sum acc
   /\ IZR lo * weight_sum acc <= weighted_sum acc <= IZR hi * weight_sum acc)%R.

(** A text of [n] copies of one character. *)
Fixpoint replicate_char (n : nat) (c : Ascii.ascii) : string :=
  match n with
  | O => EmptyString
  | S n' => String c (replicate_char n' c)
  end.

(** Two texts of 513 characters that differ in the last one only. *)
Definition long_text_x : string := String.append (replicate_char 512 "a"%char) "x".

Definition long_text_y : string := String.append (replicate_char 512 "a"%char) "y".

(** A pipeline that answers by the first character of what it is given:
    positive for ["a"], negative otherwise. *)
Definition first_char_pipeline (text : string) : Exc (list Prediction) :=
  match text with
  | String "a"%char _ => Ok [ {| pred_label := "POSITIVE"; pred_score := 9 / 10 |} ]
  | _ => Ok [ {| pred_label := "NEGATIVE"; pred_score := 8 / 10 |} ]
  end.

(** An environment like [sample_env None] whose date conversion rejects
    negative timestamps. *)
Definition strict_dates_env : Env :=
  {| config := default_config;
     sentiment_analyzer := None;
     time_time := fun _ => 1700000000;
     datetime_now_isoformat := fun _ => "2023-11-14T22:13:20";
     datetime_fromtimestamp_isoformat :=
       fun ts => if ts <? 0 then Raise OverflowError else Ok "2023-11-14T22:13:20" |}.

(** A review with a timestamp before the epoch. *)
Definition review_before_epoch : Review :=
  {| client_address := "0xE7"; client_verified := false; rating := 2;
     comment := "long ago"; timestamp := -86400 |}.

(** ** The review sources and the scoring endpoint (source lines 126-175
    and 303-361)

    The host layer around the engine. Its collaborators are the HTTP
    client, the Redis cache and the JSON codec; what they raise is a
    [HostExc]. *)

Inductive HostExc : Type :=
| KeyError (key : string)
| ValidationError (field : string)
| TransportError (msg : string)
| JSONDecodeError.

Inductive Res (A : Type) : Type :=
| Done (a : A)
| Failed (e : HostExc).
Arguments Done {A} a.
Arguments Failed {A} e.

(** One element of the [reviews] array of the API response. A key that is
    absent is [None]; a key that is present holds a value of the type the
    [Review] model declares for the field. *)
Module ApiItem.
Record t : Type := mk {
  clientAddress : option string;
  clientVerified : option bool;
  rating : option Z;
  comment : option string;
  timestamp : option Z
}.
End ApiItem.

(** The decoded body: [{"data": {"reviews": [...]}}], each level possibly
    absent. *)
Module ApiBody.
Record t : Type := mk {
  data : option (option (list ApiItem.t))
}.
End ApiBody.

Module HttpResponse.
Record t : Type := mk {
  status_code : Z;
  json : Res ApiBody.t
}.
End HttpResponse.

(** The Redis store: for each key the payload and the expiry, in seconds,
    it was set with. Expiry happens between calls, not during one. *)
Abbreviation Redis := (gmap string (string * Z)).

(** The module-level settings and the collaborators of the host layer.
    [contract_truthy] tells whether the global [contract] is bound to a
    usable contract; [json_parses] tells whether [json.loads] accepts a
    payload. *)
Record Host : Type := mkHost {
  REQUIRED_API_KEY : option string;
  USE_REDIS : bool;
  CACHE_TTL : Z;
  USE_BLOCKCHAIN : bool;
  contract_truthy : bool;
  REVIEWS_API_URL : string;
  http_get : string -> Res HttpResponse.t;
  json_dumps : string -> TrustScore.t -> string;
  json_parses : string -> bool
}.

Section Sources.
Variable host : Host.

(** [fetch_blockchain_reviews] (lines 127-145): the placeholder returns the
    empty list on every path, also when evaluating [contract] fails. *)
Definition fetch_blockchain_reviews (freelancer_address : string) : list Review :=
  if negb (USE_BLOCKCHAIN host) || negb (contract_truthy host)
  then []
  else
    let reviews : list Review := [] in
    reviews.

(** [item[key]] *)
Definition item_key {A : Type} (key : string) (value : option A) : Res A :=
  match value with
  | Some v => Done v
  | None => Failed (KeyError key)
  end.

(** [Review(client_address=item['clientAddress'], ...)] (lines 160-166):
    the keys are read in the order of the arguments, then the model
    validates the rating. *)
Definition make_review (item : ApiItem.t) : Res Review :=
  match item_key "clientAddress" (ApiItem.clientAddress item) with
  | Failed e => Failed e
  | Done address =>
    let verified := match ApiItem.clientVerified item with
                    | Some b => b
                    | None => false
                    end in
    match item_key "rating" (ApiItem.rating item) with
    | Failed e => Failed e
    | Done stars =>
      match item_key "comment" (ApiItem.comment item) with
      | Failed e => Failed e
      | Done text =>
        match item_key "timestamp" (ApiItem.timestamp item) with
        | Failed e => Failed e
        | Done ts =>
          let review := {| client_address := address; client_verified := verified;
                           rating := stars; comment := text; timestamp := ts |} in
          if rating_valid review then Done review
          else Failed (ValidationError "rating")
        end
      end
    end
  end.

(** The loop of lines 159-166. *)
Fixpoint convert_items (items : list ApiItem.t) (reviews : list Review)
  : Res (list Review) :=
  match items with
  | [] => Done reviews
  | item :: rest =>
    match make_review item with
    | Done review => convert_items rest (reviews ++ [review])
    | Failed e => Failed e
    end
  end.

(** [data.get('data', {}).get('reviews', [])] *)
Definition body_items (body : ApiBody.t) : list ApiItem.t :=
  match ApiBody.data body with
  | Some (Some items) => items
  | Some None => []
  | None => []
  end.

(** [f"{api_url}/{freelancer_address}/reviews"] *)
Definition reviews_url (freelancer_address : string) : string :=
  let api_url := REVIEWS_API_URL host in
  String.append api_url
    (String.append "/" (String.append freelancer_address "/reviews")).

(** [fetch_api_reviews] (lines 148-175): every exception ends in the
    empty list. *)
Definition fetch_api_reviews (freelancer_address : string) : list Review :=
  match http_get host (reviews_url freelancer_address) with
  | Failed _ => []
  | Done response =>
    if HttpResponse.status_code response =? 200 then
      match HttpResponse.json response with
      | Failed _ => []
      | Done body =>
        match convert_items (body_items body) [] with
        | Done reviews => reviews
        | Failed _ => []
        end
      end
    else []
  end.
End Sources.

(** What [get_trust_score] hands back: the dict it computed, with the
    address added; or [json.loads] of a cached payload, written as the
    payload it decodes; or an exception. *)
Inductive Reply : Type :=
| Computed (address : string) (trust_score : TrustScore.t)
| FromCache (payload : string)
| Raised (e : PyExc)
| HostFailed (e : HostExc).

(** [f"trust_score:{address}"] *)
Definition cache_key (address : string) : string :=
  String.append "trust_score:" address.

Section Endpoint.
Variable env : Env.
Variable host : Host.

(** [redis_client.get(key)], a lookup that yields a non-empty payload. *)
Definition redis_hit (redis : Redis) (key : string) : option string :=
  match redis !! key with
  | Some (payload, _) => if str_truthy payload then Some payload else None
  | None => None
  end.

(** Lines 327-361: what happens when the cache does not answer. *)
Definition compute_and_store (address : string) (redis : Redis) (w : World)
  : Reply * Redis * World :=
  let blockchain_reviews := fetch_blockchain_reviews host address in
  let api_reviews := fetch_api_reviews host address in
  let combined_reviews := combine_reviews blockchain_reviews api_reviews in
  match calculate_trust_score env combined_reviews w with
  | (Raise e, w') => (Raised e, redis, w')
  | (Ok trust_score, w') =>
    let redis' :=
      if USE_REDIS host
      then <[ cache_key address :=
                (json_dumps host address trust_score, CACHE_TTL host) ]> redis
      else redis in
    (Computed address trust_score, redis', w')
  end.

(** [get_trust_score] (lines 303-361). *)
Definition get_trust_score (address : string) (force_refresh : bool)
    (api_key : option string) (redis : Redis) (w : World) : Reply * Redis * World :=
  if api_key_rejected (REQUIRED_API_KEY host) api_key
  then (Raised (HTTPException 401 "Invalid or missing API key"), redis, w)
  else
    match (if USE_REDIS host && negb force_refresh
           then redis_hit redis (cache_key address) else None) with
    | Some cached_score =>
      if json_parses host cached_score
      then (FromCache cached_score, redis, w)
      else (HostFailed JSONDecodeError, redis, w)
    | None => compute_and_store address redis w
    end.
End Endpoint.

(** *** The API response as a specification would describe it *)

(** An item from which a review can be built. *)
Definition item_ok (item : ApiItem.t) : bool :=
  match ApiItem.clientAddress item, ApiItem.rating item,
        ApiItem.comment item, ApiItem.timestamp item with
  | Some _, Some stars, Some _, Some _ => (1 <=? stars) && (stars <=? 5)
  | _, _, _, _ => false
  end.

(** The review of such an item ([clientVerified] defaults to [False]). *)
Definition review_of_item (item : ApiItem.t) : Review :=
  {| client_address := default EmptyString (ApiItem.clientAddress item);
     client_verified := default false (ApiItem.clientVerified item);
     rating := default 0 (ApiItem.rating item);
     comment := default EmptyString (ApiItem.comment item);
     timestamp := default 0 (ApiItem.timestamp item) |}.

(** *** Sample host data *)

Definition item_x : ApiItem.t :=
  {| ApiItem.clientAddress := Some "x"; ApiItem.clientVerified := None;
     ApiItem.rating := Some 4; ApiItem.comment := Some "fine";
     ApiItem.timestamp := Some 1698000000 |}.

Definition item_y : ApiItem.t :=
  {| ApiItem.clientAddress := Some "y"; ApiItem.clientVerified := Some true;
     ApiItem.rating := Some 5; ApiItem.comment := Some EmptyString;
     ApiItem.timestamp := Some 1699000000 |}.

(** A second item of client x, and an item with six stars. *)
Definition item_x_again : ApiItem.t :=
  {| ApiItem.clientAddress := Some "x"; ApiItem.clientVerified := None;
     ApiItem.rating := Some 1; ApiItem.comment := Some "changed my mind";
     ApiItem.timestamp := Some 1699500000 |}.

Definition item_six_stars : ApiItem.t :=
  {| ApiItem.clientAddress := Some "z"; ApiItem.clientVerified := None;
     ApiItem.rating := Some 6; ApiItem.comment := Some "superb";
     ApiItem.timestamp := Some 1699600000 |}.

(** A host whose API answers every request with status 200 and the given
    items, with Redis in use and a key required. *)
Definition sample_host (items : list ApiItem.t) : Host :=
  {| REQUIRED_API_KEY := Some "secret";
     USE_REDIS := true;
     CACHE_TTL := 3600;
     USE_BLOCKCHAIN := false;
     contract_truthy := false;
     REVIEWS_API_URL := "http://localhost:3000/api/freelancers";
     http_get := fun _ =>
       Done {| HttpResponse.status_code := 200;
               HttpResponse.json := Done {| ApiBody.data := Some (Some items) |} |};
     json_dumps := fun address _ => String.append "{score of " (String.append address "}");
     json_parses := fun _ => true |}.

(** A host whose API cannot be reached, without Redis and without a
    required key. *)
Definition offline_host : Host :=
  {| REQUIRED_API_KEY := None;
     USE_REDIS := false;
     CACHE_TTL := 3600;
     USE_BLOCKCHAIN := false;
     contract_truthy := false;
     REVIEWS_API_URL := "http://localhost:3000/api/freelancers";
     http_get := fun _ => Failed (TransportError "connection refused");
     json_dumps := fun address _ => String.append "{score of " (String.append address "}");
     json_parses := fun _ => true |}.

(** A cache that holds a payload for the address ["0xF0"]. *)
Definition warm_redis : Redis :=
  {[ cache_key "0xF0" := ("{cached score}", 3600) ]}.

(** [r'] is [r] with a rating that is at least as high. *)
Definition rated_up (r r' : Review) : Prop :=
  client_verified r = client_verified r'
  /\ comment r = comment r'
  /\ timestamp r = timestamp r'
  /\ rating r <= rating r'.

(** * Properties *)

(** ** Rounding *)

Section Rounding.
Local Open Scope R_scope.

Lemma Int_part_bounds (x : R) : IZR (Int_part x) <= x < IZR (Int_part x) + 1.
Proof. destruct (base_Int_part x) as [Hlo Hhi]. lra. Qed.

Lemma round_half_even_cases (x : R) :
  round_half_even x = Int_part x \/
  (round_half_even x = (Int_part x + 1)%Z /\ IZR (Int_part x) + 1 / 2 <= x).
Proof.
  unfold round_half_even.
  destruct (Rlt_dec (x - IZR (Int_part x)) (1 / 2)) as [Hlt | Hge]; [now left |].
  destruct (Rlt_dec (1 / 2) (x - IZR (Int_part x))) as [Hgt | Hle].
  - right. split; [reflexivity | lra].
  - destruct (Z.even (Int_part x)); [now left | right; split; [reflexivity | lra]].
Qed.

Lemma round_half_even_lb (x : R) (k : Z) : IZR k <= x -> (k <= round_half_even x)%Z.
Proof.
  intros Hk. destruct (Int_part_bounds x) as [_ Hhi].
  assert (Hkf : (k < Int_part x + 1)%Z).
  { apply lt_IZR. rewrite plus_IZR. lra. }
  destruct (round_half_even_cases x) as [-> | [-> _]]; lia.
Qed.

Lemma round_half_even_ub (x : R) (k : Z) : x <= IZR k -> (round_half_even x <= k)%Z.
Proof.
  intros Hk. destruct (Int_part_bounds x) as [Hlo _].
  destruct (round_half_even_cases x) as [-> | [-> Hhalf]].
  - apply le_IZR. lra.
  - assert (Hlt : (Int_part x < k)%Z) by (apply lt_IZR; lra). lia.
Qed.

Lemma round_half_even_IZR (k : Z) : round_half_even (IZR k) = k.
Proof.
  apply Z.le_antisymm.
  - apply round_half_even_ub. lra.
  - apply round_half_even_lb. lra.
Qed.

Lemma Rabs_le_between (x y : R) : Rabs x <= y -> - y <= x <= y.
Proof. unfold Rabs. destruct (Rcase_abs x); lra. Qed.

Lemma pow10_pos (n : nat) : 0 < 10 ^ n.
Proof. apply pow_lt. lra. Qed.

(** A value between two multiples of [10^-n] rounds to a value between
    them. *)
Lemma round_between (lo hi : Z) (x : R) (n : nat) :
  IZR lo / 10 ^ n <= x -> x <= IZR hi / 10 ^ n ->
  IZR lo / 10 ^ n <= round x n <= IZR hi / 10 ^ n.
Proof.
  intros Hlo Hhi. pose proof (pow10_pos n) as Hp.
  assert (Hlo' : IZR lo <= x * 10 ^ n).
  { apply (Rmult_le_compat_r (10 ^ n)) in Hlo; [| lra].
    unfold Rdiv in Hlo. rewrite Rmult_assoc, Rinv_l in Hlo; lra. }
  assert (Hhi' : x * 10 ^ n <= IZR hi).
  { apply (Rmult_le_compat_r (10 ^ n)) in Hhi; [| lra].
    unfold Rdiv in Hhi. rewrite Rmult_assoc, Rinv_l in Hhi; lra. }
  apply round_half_even_lb in Hlo'. apply round_half_even_ub in Hhi'.
  apply IZR_le in Hlo', Hhi'.
  unfold round. split; apply Rmult_le_compat_r;
    try (left; apply Rinv_0_lt_compat; exact Hp); assumption.
Qed.

(** The same with integer bounds. *)
Lemma round_between_Z (lo hi : Z) (x : R) (n : nat) :
  IZR lo <= x -> x <= IZR hi -> IZR lo <= round x n <= IZR hi.
Proof.
  intros Hlo Hhi. pose proof (pow10_pos n) as Hp.
  assert (Hpz : 10 ^ n = IZR (10 ^ Z.of_nat n)) by (rewrite <- pow_IZR; reflexivity).
  assert (E : forall k : Z, IZR k = IZR (k * 10 ^ Z.of_nat n) / 10 ^ n).
  { intros k. rewrite mult_IZR, <- Hpz. field. lra. }
  rewrite (E lo), (E hi). apply round_between; rewrite <- E; assumption.
Qed.

Lemma round_IZR (k : Z) (n : nat) : round (IZR k) n = IZR k.
Proof.
  destruct (round_between_Z k k (IZR k) n) as [H1 H2]; lra.
Qed.
End Rounding.

(** ** The monad: how each operation runs *)

Section Runs.
Variable env : Env.

Lemma bind_ok {A B : Type} (m : M A) (k : A -> M B) (w w' : World) (a : A) :
  m w = (Ok a, w') -> bind m k w = k a w'.
Proof. intros H. unfold bind. now rewrite H. Qed.

Lemma calculate_time_decay_run (ts : Z) (w : World) :
  calculate_time_decay env ts w
  = (Ok (decay_factor (config env) (time_time env (clock_reads w)) ts), tick w).
Proof. reflexivity. Qed.

Lemma read_datetime_now_run (w : World) :
  read_datetime_now env w = (Ok (datetime_now_isoformat env (clock_reads w)), tick w).
Proof. reflexivity. Qed.

(** [analyze_sentiment] always returns a value, whatever the pipeline
    does, and its only effect is the record of the call. *)
Lemma analyze_sentiment_total (text : string) (w : World) :
  exists v : R, analyze_sentiment env text w = (Ok v, note_call text w).
Proof.
  unfold analyze_sentiment, bind, record_sentiment_call.
  destruct (sentiment_analyzer env) as [analyzer |]; [| now exists 0%R].
  destruct (str_truthy text); simpl; [| now exists 0%R].
  unfold try_except, bind, lift, first_item.
  destruct (analyzer (substring 0 512 text)) as [[| result rest] | e]; simpl.
  - now exists 0%R.
  - destruct (String.eqb (pred_label result) "POSITIVE"); eexists; reflexivity.
  - now exists 0%R.
Qed.

Lemma analyze_sentiment_run (text : string) (w : World) :
  analyze_sentiment env text w = (Ok (polarity env text), note_call text w).
Proof.
  destruct (analyze_sentiment_total text w) as [v Hv].
  destruct (analyze_sentiment_total text initial_world) as [v0 Hv0].
  unfold polarity. rewrite Hv0, Hv. simpl.
  revert Hv Hv0.
  unfold analyze_sentiment, bind, record_sentiment_call.
  destruct (sentiment_analyzer env) as [analyzer |]; [| unfold ret; congruence].
  destruct (str_truthy text); simpl; [| unfold ret; congruence].
  unfold try_except, bind, lift, first_item.
  destruct (analyzer (substring 0 512 text)) as [[| result rest] | e]; simpl;
    try (unfold ret, raise; congruence).
  destruct (String.eqb (pred_label result) "POSITIVE"); unfold ret; congruence.
Qed.
End Runs.

Section ScoringRuns.
Variable env : Env.

Lemma accumulate_review_run (acc : Sums) (r : Review) (w : World) :
  accumulate_review env acc r w
  = (Ok (add_review env (time_time env (clock_reads w)) acc r),
     after_scoring [r] w).
Proof.
  unfold accumulate_review, add_review, after_scoring, review_weight.
  rewrite (bind_ok _ _ _ _ _ (calculate_time_decay_run env (timestamp r) w)).
  simpl. destruct (str_truthy (comment r)).
  - rewrite (bind_ok _ _ _ _ _ (analyze_sentiment_run env (comment r) (tick w))).
    unfold ret, note_call, tick. simpl. repeat f_equal. lia.
  - unfold ret, tick. simpl. repeat f_equal; [lia | now rewrite app_nil_r].
Qed.

Lemma after_scoring_cons (r : Review) (rs : list Review) (w : World) :
  after_scoring rs (after_scoring [r] w) = after_scoring (r :: rs) w.
Proof.
  unfold after_scoring. simpl. f_equal; [lia |].
  destruct (str_truthy (comment r)); simpl.
  - now rewrite <- app_assoc.
  - now rewrite app_nil_r.
Qed.

Lemma scoring_loop_run (reviews : list Review) (acc : Sums) (w : World) :
  for_each (accumulate_review env) reviews acc w
  = (Ok (run_sums env (clock_reads w) reviews acc), after_scoring reviews w).
Proof.
  revert acc w. induction reviews as [| r rs IH]; intros acc w.
  - simpl. unfold ret, after_scoring. destruct w as [k calls]. simpl.
    repeat f_equal; [lia | now rewrite app_nil_r].
  - simpl. rewrite (bind_ok _ _ _ _ _ (accumulate_review_run acc r w)).
    rewrite IH, after_scoring_cons. repeat f_equal. simpl. f_equal. lia.
Qed.

Lemma recency_loop_run (reviews : list Review) (acc : R) (w : World) :
  for_each (fun acc r => let* d := calculate_time_decay env (timestamp r) in
                         ret (acc + d)%R) reviews acc w
  = (Ok (run_decay_total env (clock_reads w) reviews acc),
     after_reads (length reviews) w).
Proof.
  revert acc w. induction reviews as [| r rs IH]; intros acc w.
  - simpl. unfold ret, after_reads. destruct w as [k calls]. simpl.
    repeat f_equal. lia.
  - simpl. unfold bind at 1. unfold bind at 1. rewrite calculate_time_decay_run.
    unfold ret at 1. rewrite IH. unfold after_reads, tick. simpl.
    repeat f_equal. lia.
Qed.

Lemma score_locals_run (reviews : list Review) (w : World) :
  score_locals env reviews w
  = (Ok (locals_at env (clock_reads w) reviews),
     after_reads (length reviews) (after_scoring reviews w)).
Proof.
  unfold score_locals.
  rewrite (bind_ok _ _ _ _ _ (scoring_loop_run reviews _ w)).
  unfold sum_time_decay.
  rewrite (bind_ok _ _ _ _ _ (recency_loop_run reviews 0%R (after_scoring reviews w))).
  reflexivity.
Qed.

(** The world a call of [calculate_trust_score] leaves behind. *)
Lemma calculate_trust_score_nonempty (r : Review) (rs : list Review) (w : World) :
  let reviews := r :: rs in
  let w' := after_reads (length reviews) (after_scoring reviews w) in
  calculate_trust_score env reviews w
  = (Ok (result_of_locals (locals_at env (clock_reads w) reviews) (length reviews)
           (datetime_now_isoformat env (clock_reads w'))),
     tick w').
Proof.
  intros reviews w'. subst reviews w'. unfold calculate_trust_score.
  rewrite (bind_ok _ _ _ _ _ (score_locals_run (r :: rs) w)).
  rewrite (bind_ok _ _ _ _ _ (read_datetime_now_run env _)).
  reflexivity.
Qed.
End ScoringRuns.

(** ** The result of the aggregation: empty input and numeric bounds *)

Section Bounds.
Variable env : Env.
Local Open Scope R_scope.

Lemma calculate_trust_score_nil (w : World) :
  calculate_trust_score env [] w
  = (Ok {| TrustScore.score := 50;
           TrustScore.confidence := 0;
           TrustScore.review_count := 0;
           TrustScore.average_rating := 0;
           TrustScore.sentiment_adjustment := 0;
           TrustScore.recency_factor := 1;
           TrustScore.calculation_time := datetime_now_isoformat env (clock_reads w) |},
     tick w).
Proof. reflexivity. Qed.

Lemma clamp_bounds (x : R) : 1 <= Rmin 5 (Rmax 1 x) <= 5.
Proof.
  unfold Rmin, Rmax.
  destruct (Rle_dec 1 x); destruct (Rle_dec 5 _); lra.
Qed.

Lemma adjusted_rating_bounds (sums : Sums) (n : nat) (d : R) :
  1 <= Locals.adjusted_rating (locals_of_sums env sums n d) <= 5.
Proof. apply clamp_bounds. Qed.

Lemma trust_score_bounds (sums : Sums) (n : nat) (d : R) :
  0 <= Locals.trust_score (locals_of_sums env sums n d) <= 100.
Proof.
  pose proof (adjusted_rating_bounds sums n d) as H.
  unfold locals_of_sums in *. simpl in *. lra.
Qed.

Lemma confidence_bounds (sums : Sums) (n : nat) (d : R) :
  0 <= Locals.confidence (locals_of_sums env sums n d) <= 1.
Proof.
  simpl. pose proof (pos_INR n) as Hn. unfold Rmin.
  destruct (Rle_dec 1 (INR n / 10)); lra.
Qed.

(** C3: on the empty review list the aggregation raises nothing and
    returns the neutral result: score 50, confidence 0, review count 0,
    average rating 0, sentiment adjustment 0, recency factor 1 (and the
    time of the call as calculation time). *)
Theorem calculate_trust_score_empty (w : World) :
  calculate_trust_score env [] w
  = (Ok {| TrustScore.score := 50;
           TrustScore.confidence := 0;
           TrustScore.review_count := 0;
           TrustScore.average_rating := 0;
           TrustScore.sentiment_adjustment := 0;
           TrustScore.recency_factor := 1;
           TrustScore.calculation_time := datetime_now_isoformat env (clock_reads w) |},
     tick w).
Proof. unfold calculate_trust_score, bind, read_datetime_now, ret. reflexivity. Qed.

End Bounds.

(** ** Decay function *)

Section Decay.
Variable cfg : Config.
Local Open Scope R_scope.

Lemma TIME_UNIT_pos : 0 < IZR TIME_UNIT.
Proof. apply IZR_lt. reflexivity. Qed.

Lemma decay_factor_pos (now ts : Z) : 0 < decay_factor cfg now ts.
Proof. unfold decay_factor. apply exp_pos. Qed.

Lemma decay_factor_now (now : Z) : decay_factor cfg now now = 1.
Proof.
  unfold decay_factor. rewrite Z.sub_diag.
  replace (- TIME_DECAY_FACTOR cfg * (0 / IZR TIME_UNIT)) with 0.
  - apply exp_0.
  - unfold Rdiv. ring.
Qed.

(** The exponent grows with the timestamp when the decay constant is not
    negative. *)
Lemma decay_exponent_le (now older newer : Z) :
  0 <= TIME_DECAY_FACTOR cfg -> (older <= newer)%Z ->
  - TIME_DECAY_FACTOR cfg * (IZR (now - older) / IZR TIME_UNIT)
  <= - TIME_DECAY_FACTOR cfg * (IZR (now - newer) / IZR TIME_UNIT).
Proof.
  intros Hl Hle. pose proof TIME_UNIT_pos as Hu.
  assert (Hages : IZR (now - newer) <= IZR (now - older)) by (apply IZR_le; lia).
  assert (Hdiv : IZR (now - newer) / IZR TIME_UNIT <= IZR (now - older) / IZR TIME_UNIT).
  { unfold Rdiv. apply Rmult_le_compat_r; [| exact Hages].
    left. now apply Rinv_0_lt_compat. }
  nra.
Qed.

Lemma exp_le (x y : R) : x <= y -> exp x <= exp y.
Proof.
  intros [Hlt | ->]; [left; now apply exp_increasing | right; reflexivity].
Qed.

Lemma decay_factor_mono (now older newer : Z) :
  0 <= TIME_DECAY_FACTOR cfg -> (older <= newer)%Z ->
  decay_factor cfg now older <= decay_factor cfg now newer.
Proof.
  intros Hl Hle. unfold decay_factor. now apply exp_le, decay_exponent_le.
Qed.

Lemma decay_factor_future (now ts : Z) :
  0 < TIME_DECAY_FACTOR cfg -> (now < ts)%Z -> 1 < decay_factor cfg now ts.
Proof.
  intros Hl Hlt. pose proof TIME_UNIT_pos as Hu.
  unfold decay_factor. rewrite <- exp_0. apply exp_increasing.
  assert (Hage : IZR (now - ts) < 0) by (apply IZR_lt; lia).
  assert (Hdiv : IZR (now - ts) / IZR TIME_UNIT < 0).
  { unfold Rdiv. rewrite <- (Rmult_0_l (/ IZR TIME_UNIT)).
    apply Rmult_lt_compat_r; [now apply Rinv_0_lt_compat | exact Hage]. }
  nra.
Qed.

(** A review that is not from the future never weighs more than 1. *)
Lemma decay_factor_le_1 (now ts : Z) :
  0 <= TIME_DECAY_FACTOR cfg -> (ts <= now)%Z -> decay_factor cfg now ts <= 1.
Proof.
  intros Hl Hle. rewrite <- (decay_factor_now now). now apply decay_factor_mono.
Qed.
End Decay.



(** ** Sentiment: the adapter's range and the bound on its influence *)

Section Sentiment.
Variable env : Env.
Local Open Scope R_scope.

Lemma polarity_bounds (text : string) :
  pipeline_scores_in_unit env -> -1 <= polarity env text <= 1.
Proof.
  intros Hpipe. unfold polarity, analyze_sentiment, bind, record_sentiment_call.
  destruct (sentiment_analyzer env) as [analyzer |] eqn:Han; [| simpl; lra].
  destruct (str_truthy text); simpl; [| lra].
  unfold try_except, bind, lift, first_item.
  destruct (analyzer (substring 0 512 text)) as [[| result rest] | e] eqn:Hcall;
    simpl; try lra.
  pose proof (Hpipe analyzer _ _ Han Hcall) as Hall.
  inversion Hall as [| p ps Hp _]; subst.
  destruct (String.eqb (pred_label result) "POSITIVE"); simpl; lra.
Qed.

Hypothesis Hpipe : pipeline_scores_in_unit env.
Hypothesis Hweights : weights_positive (config env).

Lemma review_weight_pos (now : Z) (r : Review) : 0 < review_weight env now r.
Proof.
  unfold review_weight. apply Rmult_lt_0_compat; [apply decay_factor_pos |].
  destruct Hweights as (Hv & Hu & _).
  unfold client_weight_of. now destruct (client_verified r).
Qed.

Lemma add_review_ok (now : Z) (acc : Sums) (r : Review) :
  sums_ok acc ->
  sums_ok (add_review env now acc r)
  /\ weight_sum acc < weight_sum (add_review env now acc r).
Proof.
  intros [Hw Hs]. pose proof (review_weight_pos now r) as Hpos.
  unfold sums_ok, add_review. simpl. split; [split |]; try lra.
  destruct (str_truthy (comment r)); [| lra].
  pose proof (polarity_bounds (comment r) Hpipe) as Hp.
  eapply Rle_trans; [apply Rabs_triang |].
  rewrite Rabs_mult, (Rabs_pos_eq (review_weight env now r)) by lra.
  assert (Habs : Rabs (polarity env (comment r)) <= 1) by (apply Rabs_le; lra).
  nra.
Qed.

Lemma run_sums_ok (reviews : list Review) (k : nat) (acc : Sums) :
  sums_ok acc ->
  sums_ok (run_sums env k reviews acc)
  /\ weight_sum acc <= weight_sum (run_sums env k reviews acc)
  /\ (reviews <> [] -> weight_sum acc < weight_sum (run_sums env k reviews acc)).
Proof.
  revert k acc. induction reviews as [| r rs IH]; intros k acc Hacc.
  - simpl. repeat split; try apply Hacc; [lra | congruence].
  - simpl. destruct (add_review_ok (time_time env k) acc r Hacc) as [Hok Hlt].
    destruct (IH (S k) _ Hok) as (Hok' & Hle & _).
    repeat split; try apply Hok'; lra.
Qed.

Lemma zero_sums_ok : sums_ok zero_sums.
Proof. unfold sums_ok, zero_sums. simpl. rewrite Rabs_R0. lra. Qed.

Lemma average_sentiment_bounds (sums : Sums) (n : nat) (d : R) :
  sums_ok sums ->
  Rabs (Locals.average_sentiment (locals_of_sums env sums n d)) <= 1.
Proof.
  intros [Hw Hs]. simpl.
  destruct (Rlt_dec 0 (weight_sum sums)) as [Hpos | _].
  - unfold Rdiv. rewrite Rabs_mult, Rabs_inv, (Rabs_pos_eq (weight_sum sums)) by lra.
    apply (Rmult_le_reg_r (weight_sum sums)); [exact Hpos |].
    rewrite Rmult_assoc, Rinv_l by lra. lra.
  - rewrite Rabs_R0. lra.
Qed.

Lemma sentiment_adjustment_bounds (sums : Sums) (n : nat) (d : R) :
  sums_ok sums ->
  Rabs (Locals.sentiment_adjustment (locals_of_sums env sums n d))
  <= SENTIMENT_WEIGHT (config env).
Proof.
  intros Hok. pose proof (average_sentiment_bounds sums n d Hok) as Havg.
  destruct Hweights as (_ & _ & Hsw).
  simpl in *. rewrite Rabs_mult, (Rabs_pos_eq (SENTIMENT_WEIGHT (config env))) by lra.
  pose proof (Rabs_pos (if Rlt_dec 0 (weight_sum sums)
                        then sentiment_sum sums / weight_sum sums else 0)).
  nra.
Qed.
End Sentiment.


Lemma sample_pipeline_in_unit : pipeline_scores_in_unit (sample_env (Some always_positive)).
Proof.
  intros analyzer text predictions Han Hcall. simpl in Han.
  injection Han as <-. unfold always_positive in Hcall. injection Hcall as <-.
  constructor; [simpl; lra | constructor].
Qed.

Lemma default_weights_positive : weights_positive default_config.
Proof. unfold weights_positive. simpl. lra. Qed.


(** ** Recency factor *)

Section Recency.
Local Open Scope R_scope.

Lemma round_half_even_small (y : R) : 0 <= y < 1 / 2 -> round_half_even y = 0%Z.
Proof.
  intros [Hlo Hhi]. destruct (Int_part_bounds y) as [Hf1 Hf2].
  assert (Hf : Int_part y = 0%Z).
  { assert ((Int_part y < 1)%Z) by (apply lt_IZR; lra).
    assert ((-1 < Int_part y)%Z) by (apply lt_IZR; lra). lia. }
  unfold round_half_even. rewrite Hf.
  destruct (Rlt_dec (y - 0) (1 / 2)) as [_ | Hn]; [reflexivity | lra].
Qed.

(** Below half a hundredth, a value is reported as 0. *)
Lemma round_2_small (x : R) : 0 <= x < 1 / 200 -> round x 2 = 0.
Proof.
  intros Hx. unfold round. rewrite round_half_even_small; simpl; lra.
Qed.

Lemma exp_1_gt_2 : 2 < exp 1.
Proof. pose proof (exp_ineq1 1). lra. Qed.

Lemma exp_8_gt_256 : 256 < exp 8.
Proof.
  pose proof exp_1_gt_2 as H1.
  assert (H2 : 4 < exp 2).
  { replace 2 with (1 + 1) by lra. rewrite exp_plus. nra. }
  assert (H4 : 16 < exp 4).
  { replace 4 with (2 + 2) by lra. rewrite exp_plus. nra. }
  replace 8 with (4 + 4) by lra. rewrite exp_plus. nra.
Qed.

(** With the default decay constant, a review [n] time units old weighs
    [exp (- 0.05 n)]. *)
Lemma decay_factor_default (now n : Z) :
  decay_factor default_config now (now - n * TIME_UNIT) = exp (- (5 / 100) * IZR n).
Proof.
  unfold decay_factor. f_equal.
  replace (now - (now - n * TIME_UNIT))%Z with (n * TIME_UNIT)%Z by lia.
  rewrite mult_IZR. pose proof TIME_UNIT_pos. simpl. field. lra.
Qed.

Variable env : Env.

Lemma run_decay_total_lb (reviews : list Review) (k : nat) (acc : R) :
  acc <= run_decay_total env k reviews acc.
Proof.
  revert k acc. induction reviews as [| r rs IH]; intros k acc; simpl; [lra |].
  pose proof (decay_factor_pos (config env) (time_time env k) (timestamp r)).
  eapply Rle_trans; [| apply IH]. lra.
Qed.

Lemma run_decay_total_ub (reviews : list Review) (k : nat) (acc : R) :
  0 <= TIME_DECAY_FACTOR (config env) ->
  (forall r j, In r reviews -> (timestamp r <= time_time env j)%Z) ->
  run_decay_total env k reviews acc <= acc + INR (length reviews).
Proof.
  intros Hl. revert k acc. induction reviews as [| r rs IH]; intros k acc Hpast.
  - simpl. lra.
  - cbn [run_decay_total length]. rewrite S_INR.
    pose proof (decay_factor_le_1 (config env) (time_time env k) (timestamp r) Hl
                  (Hpast r k (or_introl eq_refl))) as Hd.
    eapply Rle_trans; [apply IH |]; [| lra].
    intros r' j Hin. apply Hpast. now right.
Qed.
End Recency.

(** The recency factor of a single review is its rounded decay weight. *)
Lemma recency_factor_single (env : Env) (r : Review) (w : World) :
  exists (res : TrustScore.t) (w' : World),
    calculate_trust_score env [r] w = (Ok res, w')
    /\ TrustScore.recency_factor res
       = round (decay_factor (config env) (time_time env (clock_reads w + 1)) (timestamp r)) 2.
Proof.
  eexists. eexists. split; [apply calculate_trust_score_nonempty |].
  unfold result_of_locals, locals_at. simpl. f_equal. field.
Qed.




(** ** Sentiment adapter: failures and invocations *)

Section Adapter.
Variable env : Env.

Lemma analyze_sentiment_empty (w : World) :
  analyze_sentiment env EmptyString w = (Ok 0%R, note_call EmptyString w).
Proof.
  unfold analyze_sentiment, bind, record_sentiment_call.
  now destruct (sentiment_analyzer env).
Qed.

Lemma analyze_sentiment_no_model (text : string) (w : World) :
  sentiment_analyzer env = None ->
  analyze_sentiment env text w = (Ok 0%R, note_call text w).
Proof.
  intros Hnone. unfold analyze_sentiment, bind, record_sentiment_call.
  now rewrite Hnone.
Qed.

Lemma analyze_sentiment_pipeline_raises
    (analyzer : string -> Exc (list Prediction)) (text : string) (e : PyExc) (w : World) :
  sentiment_analyzer env = Some analyzer ->
  analyzer (substring 0 512 text) = Raise e ->
  analyze_sentiment env text w = (Ok 0%R, note_call text w).
Proof.
  intros Han Hraise. unfold analyze_sentiment, bind, record_sentiment_call.
  rewrite Han. destruct (str_truthy text); simpl; [| reflexivity].
  unfold try_except, bind, lift. now rewrite Hraise.
Qed.

Lemma analyze_sentiment_no_prediction
    (analyzer : string -> Exc (list Prediction)) (text : string) (w : World) :
  sentiment_analyzer env = Some analyzer ->
  analyzer (substring 0 512 text) = Ok [] ->
  analyze_sentiment env text w = (Ok 0%R, note_call text w).
Proof.
  intros Han Hnil. unfold analyze_sentiment, bind, record_sentiment_call.
  rewrite Han. destruct (str_truthy text); simpl; [| reflexivity].
  unfold try_except, bind, lift. now rewrite Hnil.
Qed.

Lemma accumulate_review_no_comment (acc : Sums) (r : Review) (w : World) :
  comment r = EmptyString ->
  exists (acc' : Sums) (w' : World),
    accumulate_review env acc r w = (Ok acc', w')
    /\ sentiment_sum acc' = sentiment_sum acc
    /\ sentiment_calls w' = sentiment_calls w.
Proof.
  intros Hc. eexists. eexists. split; [apply accumulate_review_run |].
  unfold add_review, after_scoring. simpl. rewrite Hc. simpl.
  split; [reflexivity | apply app_nil_r].
Qed.

Lemma calculate_trust_score_calls (reviews : list Review) (w : World) :
  exists (res : TrustScore.t) (w' : World),
    calculate_trust_score env reviews w = (Ok res, w')
    /\ sentiment_calls w'
       = sentiment_calls w ++ List.filter str_truthy (map comment reviews).
Proof.
  destruct reviews as [| r rs].
  - eexists. eexists. split; [apply calculate_trust_score_nil |].
    simpl. now rewrite app_nil_r.
  - eexists. eexists. split; [apply calculate_trust_score_nonempty |].
    reflexivity.
Qed.
End Adapter.



(** ** Determinism of the aggregation *)

Section Determinism.
Variable env : Env.

Lemma run_sums_clock (reviews : list Review) (k1 k2 : nat) (acc : Sums) :
  (forall i : nat, time_time env (k1 + i) = time_time env (k2 + i)) ->
  run_sums env k1 reviews acc = run_sums env k2 reviews acc.
Proof.
  revert k1 k2 acc. induction reviews as [| r rs IH]; intros k1 k2 acc Hclock.
  - reflexivity.
  - simpl. pose proof (Hclock 0%nat) as H0. rewrite !Nat.add_0_r in H0. rewrite H0.
    apply IH. intros i. specialize (Hclock (S i)).
    now rewrite !Nat.add_succ_r in Hclock.
Qed.

Lemma run_decay_total_clock (reviews : list Review) (k1 k2 : nat) (acc : R) :
  (forall i : nat, time_time env (k1 + i) = time_time env (k2 + i)) ->
  run_decay_total env k1 reviews acc = run_decay_total env k2 reviews acc.
Proof.
  revert k1 k2 acc. induction reviews as [| r rs IH]; intros k1 k2 acc Hclock.
  - reflexivity.
  - simpl. pose proof (Hclock 0%nat) as H0. rewrite !Nat.add_0_r in H0. rewrite H0.
    apply IH. intros i. specialize (Hclock (S i)).
    now rewrite !Nat.add_succ_r in Hclock.
Qed.

Lemma locals_at_clock (reviews : list Review) (k1 k2 : nat) :
  (forall i : nat, time_time env (k1 + i) = time_time env (k2 + i)) ->
  locals_at env k1 reviews = locals_at env k2 reviews.
Proof.
  intros Hclock. unfold locals_at.
  rewrite (run_sums_clock reviews k1 k2 _ Hclock).
  rewrite (run_decay_total_clock reviews (k1 + length reviews) (k2 + length reviews)).
  - reflexivity.
  - intros i. rewrite <- !Nat.add_assoc. apply Hclock.
Qed.
End Determinism.



(** ** Merge of the two review sources *)

Section Merge.
Implicit Types (seen : gset string) (r : Review) (p s : list Review).

Lemma blockchain_loop_run p (combined : list Review) seen :
  fold_left add_blockchain_review p (combined, seen)
  = (combined ++ p, seen ∪ list_to_set (client_address <$> p)).
Proof.
  revert combined seen. induction p as [| r p IH]; intros combined seen.
  - simpl. f_equal; [now rewrite app_nil_r | set_solver].
  - simpl. rewrite IH. f_equal; [now rewrite <- app_assoc | set_solver].
Qed.

Lemma api_loop_run s (combined : list Review) seen :
  fst (fold_left add_api_review s (combined, seen)) = combined ++ keep_unseen seen s.
Proof.
  revert combined seen. induction s as [| r s IH]; intros combined seen.
  - simpl. now rewrite app_nil_r.
  - simpl. destruct (bool_decide (client_address r ∈ seen)).
    + apply IH.
    + rewrite IH. now rewrite <- app_assoc.
Qed.

(** The merge is the blockchain list followed by the API reviews whose
    client was not seen before. *)
Lemma combine_reviews_run p s :
  combine_reviews p s = p ++ keep_unseen (list_to_set (client_address <$> p)) s.
Proof.
  unfold combine_reviews. rewrite blockchain_loop_run. simpl.
  rewrite api_loop_run. f_equal. f_equal. set_solver.
Qed.

Lemma keep_unseen_sublist seen s : keep_unseen seen s `sublist_of` s.
Proof.
  revert seen. induction s as [| r s IH]; intros seen; simpl.
  - constructor.
  - destruct (bool_decide (client_address r ∈ seen)).
    + apply sublist_cons, IH.
    + apply sublist_skip, IH.
Qed.

Lemma keep_unseen_fresh seen s r :
  r ∈ keep_unseen seen s -> client_address r ∉ seen.
Proof.
  revert seen. induction s as [| r' s IH]; intros seen; simpl.
  - intros Hin. inversion Hin.
  - destruct (bool_decide (client_address r' ∈ seen)) eqn:Hdec.
    + apply IH.
    + apply bool_decide_eq_false in Hdec. intros Hin.
      apply elem_of_cons in Hin as [-> | Hin]; [exact Hdec |].
      apply IH in Hin. set_solver.
Qed.

Lemma keep_unseen_NoDup seen s : NoDup (client_address <$> keep_unseen seen s).
Proof.
  revert seen. induction s as [| r s IH]; intros seen; simpl.
  - constructor.
  - destruct (bool_decide (client_address r ∈ seen)); [apply IH |].
    rewrite fmap_cons. apply NoDup_cons. split; [| apply IH].
    intros Hin. apply list_elem_of_fmap in Hin as (r' & Heq & Hin).
    apply keep_unseen_fresh in Hin. set_solver.
Qed.

(** The first review of a client not seen before is kept. *)
Lemma keep_unseen_first seen (pre : list Review) r (post : list Review) :
  client_address r ∉ seen ->
  client_address r ∉ client_address <$> pre ->
  r ∈ keep_unseen seen (pre ++ r :: post).
Proof.
  revert seen. induction pre as [| a pre IH]; intros seen Hseen Hpre; simpl.
  - rewrite bool_decide_eq_false_2 by exact Hseen. apply list_elem_of_here.
  - rewrite fmap_cons in Hpre. apply not_elem_of_cons in Hpre as [Hne Hpre].
    destruct (bool_decide (client_address a ∈ seen)).
    + now apply IH.
    + apply list_elem_of_further, IH; [set_solver | exact Hpre].
Qed.
End Merge.

(** The example of the specification: with [primary = [A]] by client x and
    [secondary = [B; C]] by clients x and y, the merge is [[A; C]]. *)
Example combine_reviews_spec_example :
  combine_reviews [chain_x_first] [api_x; api_y_first] = [chain_x_first; api_y_first].
Proof. vm_compute. reflexivity. Qed.




(** C10: the merge keeps every blockchain review, also several by one
    client, and from the API list it keeps, in order, exactly the first
    review of each client that has no blockchain review: what it keeps is
    a sublist of the API list with pairwise distinct clients, none of them
    a blockchain client, and it contains every API review whose client has
    no blockchain review and no earlier API review. *)
Theorem combine_reviews_one_sided (p s : list Review) :
  exists kept : list Review,
    combine_reviews p s = p ++ kept
    /\ kept `sublist_of` s
    /\ NoDup (client_address <$> kept)
    /\ (forall r, r ∈ kept -> client_address r ∉ client_address <$> p)
    /\ (forall pre r post,
          s = pre ++ r :: post ->
          client_address r ∉ client_address <$> p ->
          client_address r ∉ client_address <$> pre ->
          r ∈ kept).
Proof.
  exists (keep_unseen (list_to_set (client_address <$> p)) s).
  split; [apply combine_reviews_run |].
  split; [apply keep_unseen_sublist |].
  split; [apply keep_unseen_NoDup |].
  split.
  - intros r Hin. apply keep_unseen_fresh in Hin. set_solver.
  - intros pre r post -> Hp Hpre. apply keep_unseen_first; [set_solver | exact Hpre].
Qed.

(** On the sample data: both blockchain reviews of client x stay, the API
    review of x is dropped, and of the two API reviews of y the first
    stays. *)
Lemma combine_reviews_one_sided_witness :
  combine_reviews [chain_x_first; chain_x_second] [api_x; api_y_first; api_y_second]
  = [chain_x_first; chain_x_second; api_y_first]
  /\ exists kept : list Review,
       combine_reviews [chain_x_first; chain_x_second] [api_x; api_y_first; api_y_second]
       = [chain_x_first; chain_x_second] ++ kept
       /\ api_y_first ∈ kept.
Proof.
  split; [vm_compute; reflexivity |].
  destruct (combine_reviews_one_sided [chain_x_first; chain_x_second]
              [api_x; api_y_first; api_y_second])
    as (kept & Hrun & _ & _ & _ & Hfirst).
  exists kept. split; [exact Hrun |].
  apply (Hfirst [api_x] api_y_first [api_y_second]); [reflexivity | |].
  - simpl. intros Hin. apply elem_of_cons in Hin as [Heq | Hin]; [discriminate |].
    apply elem_of_cons in Hin as [Heq | Hin]; [discriminate | inversion Hin].
  - simpl. intros Hin. apply elem_of_cons in Hin as [Heq | Hin]; [discriminate | inversion Hin].
Defined.

(** ** Per-review analysis view *)

Section AnalysisRuns.
Variable env : Env.

Lemma analyze_one_run (acc : list Analyzed.t) (r : Review) (w : World) :
  (exists dt, datetime_fromtimestamp_isoformat env (timestamp r) = Ok dt) ->
  analyze_one env acc r w
  = (Ok (acc ++ [analyzed_at env (time_time env (clock_reads w)) r]),
     after_analysis [r] w).
Proof.
  intros [dt Hdt]. unfold analyze_one.
  rewrite (bind_ok _ _ _ _ _ (analyze_sentiment_run env (comment r) w)).
  rewrite (bind_ok _ _ _ _ _ (calculate_time_decay_run env (timestamp r) _)).
  unfold bind, lift, ret, analyzed_at, datetime_of, after_analysis, tick, note_call.
  rewrite Hdt. simpl. repeat f_equal. lia.
Qed.

Lemma after_analysis_cons (r : Review) (rs : list Review) (w : World) :
  after_analysis rs (after_analysis [r] w) = after_analysis (r :: rs) w.
Proof.
  unfold after_analysis. simpl. f_equal; [lia | now rewrite <- app_assoc].
Qed.

Lemma analysis_loop_run (reviews : list Review) (acc : list Analyzed.t) (w : World) :
  (forall r, In r reviews ->
             exists dt, datetime_fromtimestamp_isoformat env (timestamp r) = Ok dt) ->
  for_each (analyze_one env) reviews acc w
  = (Ok (acc ++ run_entries env (clock_reads w) reviews), after_analysis reviews w).
Proof.
  revert acc w. induction reviews as [| r rs IH]; intros acc w Hdt.
  - simpl. unfold ret, after_analysis. destruct w as [k calls]. simpl.
    rewrite !app_nil_r. repeat f_equal. lia.
  - simpl.
    rewrite (bind_ok _ _ _ _ _ (analyze_one_run acc r w (Hdt r (or_introl eq_refl)))).
    rewrite IH by (intros r' Hin; apply Hdt; now right).
    rewrite after_analysis_cons, <- app_assoc. simpl.
    repeat f_equal. lia.
Qed.

Lemma after_sentiments_cons (r : Review) (rs : list Review) (w : World) :
  after_sentiments rs (note_call (comment r) w) = after_sentiments (r :: rs) w.
Proof.
  unfold after_sentiments, note_call. simpl. f_equal. now rewrite <- app_assoc.
Qed.

Lemma sentiment_loop_run (reviews : list Review) (acc : R) (w : World) :
  for_each (fun acc r => let* s := analyze_sentiment env (comment r) in
                         ret (acc + s)%R) reviews acc w
  = (Ok (acc + sum_R (map (fun r => polarity env (comment r)) reviews))%R,
     after_sentiments reviews w).
Proof.
  revert acc w. induction reviews as [| r rs IH]; intros acc w.
  - simpl. unfold ret, after_sentiments. destruct w as [k calls]. simpl.
    rewrite app_nil_r. apply f_equal2; [f_equal; lra | reflexivity].
  - simpl. unfold bind at 1. unfold bind at 1. rewrite analyze_sentiment_run.
    unfold ret at 1. rewrite IH, after_sentiments_cons.
    apply f_equal2; [f_equal; simpl; lra | reflexivity].
Qed.

Lemma sum_ratings_acc (reviews : list Review) (acc : Z) :
  fold_left (fun acc r => acc + rating r) reviews acc
  = acc + sum_Z (map rating reviews).
Proof.
  revert acc. induction reviews as [| r rs IH]; intros acc; simpl; [lia |].
  rewrite IH. lia.
Qed.

Lemma count_verified_acc (reviews : list Review) (acc : Z) :
  fold_left (fun acc r => if client_verified r then acc + 1 else acc) reviews acc
  = acc + Z.of_nat (length (List.filter client_verified reviews)).
Proof.
  revert acc. induction reviews as [| r rs IH]; intros acc; simpl; [lia |].
  rewrite IH. destruct (client_verified r); simpl; lia.
Qed.

Lemma run_entries_length (k : nat) (reviews : list Review) :
  length (run_entries env k reviews) = length reviews.
Proof.
  revert k. induction reviews as [| r rs IH]; intros k; simpl; [reflexivity |].
  now rewrite IH.
Qed.

(** Every entry repeats the fields of the review at its position. *)
Lemma run_entries_fields (k : nat) (reviews : list Review) :
  Forall2 (fun e r => Analyzed.client_address e = client_address r
                      /\ Analyzed.client_verified e = client_verified r
                      /\ Analyzed.rating e = rating r
                      /\ Analyzed.comment e = comment r
                      /\ Analyzed.timestamp e = timestamp r)
          (run_entries env k reviews) reviews.
Proof.
  revert k. induction reviews as [| r rs IH]; intros k; simpl; constructor.
  - repeat split.
  - apply IH.
Qed.
End AnalysisRuns.



(** ** The scenarios of the specification *)

Section Scenarios.
Local Open Scope R_scope.

(** A value with [n] decimals is reported as it is. *)
Lemma round_decimal (x : R) (n : nat) (k : Z) : x * 10 ^ n = IZR k -> round x n = x.
Proof.
  intros Hk. pose proof (pow10_pos n) as Hp. unfold round.
  rewrite Hk, round_half_even_IZR, <- Hk. field. lra.
Qed.

Lemma clamp_inside (x : R) : 1 <= x <= 5 -> Rmin 5 (Rmax 1 x) = x.
Proof.
  intros Hx. unfold Rmin, Rmax.
  destruct (Rle_dec 1 x); destruct (Rle_dec 5 _); lra.
Qed.

(** The sums after a single review written at the instant of the clock
    (which stands still in [sample_env]). *)
Lemma run_sums_single_now (analyzer : option (string -> Exc (list Prediction)))
    (k : nat) (r : Review) :
  timestamp r = 1700000000%Z ->
  let env := sample_env analyzer in
  let sums := run_sums env k [r] zero_sums in
  weight_sum sums = client_weight_of env (client_verified r)
  /\ weighted_sum sums = IZR (rating r) * client_weight_of env (client_verified r)
  /\ sentiment_sum sums
     = if str_truthy (comment r)
       then polarity env (comment r) * client_weight_of env (client_verified r)
       else 0.
Proof.
  intros Hts env sums. subst sums env.
  cbn [run_sums add_review weight_sum weighted_sum sentiment_sum zero_sums].
  unfold review_weight. cbn [sample_env time_time config]. rewrite Hts.
  rewrite decay_factor_now. repeat split; try ring.
  destruct (str_truthy (comment r)); ring.
Qed.

(** A single five-star review by a verified client, without comment,
    written now: score 100, confidence 0.1, average rating 5, no sentiment
    adjustment, recency factor 1. *)
Example scenario_single_review :
  exists res w',
    calculate_trust_score (sample_env None) [review_now] initial_world = (Ok res, w')
    /\ TrustScore.score res = 100
    /\ TrustScore.confidence res = 1 / 10
    /\ TrustScore.review_count res = 1%nat
    /\ TrustScore.average_rating res = 5
    /\ TrustScore.sentiment_adjustment res = 0
    /\ TrustScore.recency_factor res = 1.
Proof.
  eexists. eexists. split; [apply calculate_trust_score_nonempty |].
  destruct (run_sums_single_now None 0 review_now eq_refl) as (Hw & Hws & Hss).
  unfold result_of_locals, locals_at, locals_of_sums.
  cbn [TrustScore.score TrustScore.confidence TrustScore.review_count
       TrustScore.average_rating TrustScore.sentiment_adjustment
       TrustScore.recency_factor Locals.trust_score Locals.confidence
       Locals.weighted_rating Locals.sentiment_adjustment Locals.avg_decay
       clock_reads initial_world].
  rewrite Hw, Hws, Hss.
  cbn [review_now client_verified rating comment str_truthy client_weight_of
       sample_env config default_config VERIFIED_CLIENT_WEIGHT SENTIMENT_WEIGHT
       length run_decay_total time_time timestamp].
  rewrite decay_factor_now.
  destruct (Rlt_dec 0 (15 / 10)) as [_ | Hn]; [| lra].
  replace (5 * (15 / 10) / (15 / 10)) with 5 by field.
  replace (0 / (15 / 10) * (3 / 10)) with 0 by field.
  rewrite (clamp_inside (5 + 0)) by lra.
  replace (Rmin 1 (INR 1 / 10)) with (1 / 10)
    by (unfold Rmin; simpl; destruct (Rle_dec 1 (1 / 10)); lra).
  replace ((5 + 0 - 1) * 25) with 100 by lra.
  replace ((0 + 1) / INR 1) with 1 by (simpl; field).
  rewrite (round_IZR 100 1), (round_IZR 5 2), (round_IZR 0 2), (round_IZR 1 2).
  repeat split. apply (round_decimal _ 2 10). simpl. lra.
Qed.

Lemma polarity_always_positive : polarity (sample_env (Some always_positive)) "great work" = 1.
Proof. reflexivity. Qed.

(** A three-star review whose comment has polarity 1, with the default
    sentiment weight 0.3: the adjustment is 0.3, the adjusted rating 3.3
    and the score 57.5. *)
Example scenario_sentiment_influence :
  exists l res w1 w2,
    score_locals (sample_env (Some always_positive)) [review_commented] initial_world
    = (Ok l, w1)
    /\ calculate_trust_score (sample_env (Some always_positive)) [review_commented]
         initial_world = (Ok res, w2)
    /\ Locals.sentiment_adjustment l = 3 / 10
    /\ Locals.adjusted_rating l = 33 / 10
    /\ TrustScore.score res = 575 / 10.
Proof.
  eexists. eexists. eexists. eexists.
  split; [apply score_locals_run |].
  split; [apply calculate_trust_score_nonempty |].
  destruct (run_sums_single_now (Some always_positive) 0 review_commented eq_refl)
    as (Hw & Hws & Hss).
  unfold result_of_locals, locals_at, locals_of_sums.
  cbn [TrustScore.score Locals.trust_score Locals.adjusted_rating
       Locals.sentiment_adjustment clock_reads initial_world].
  rewrite Hw, Hws, Hss.
  cbn [review_commented client_verified rating comment str_truthy client_weight_of
       sample_env config default_config VERIFIED_CLIENT_WEIGHT SENTIMENT_WEIGHT].
  rewrite polarity_always_positive.
  destruct (Rlt_dec 0 (15 / 10)) as [_ | Hn]; [| lra].
  replace (3 * (15 / 10) / (15 / 10)) with 3 by field.
  replace (1 * (15 / 10) / (15 / 10) * (3 / 10)) with (3 / 10) by field.
  rewrite (clamp_inside (3 + 3 / 10)) by lra.
  split; [reflexivity |]. split; [lra |].
  replace ((3 + 3 / 10 - 1) * 25) with (575 / 10) by lra.
  apply (round_decimal _ 1 575). simpl. lra.
Qed.

(** Equal weights average the ratings: weighted rating 3, score 50,
    confidence 0.2. *)
Example scenario_two_reviews :
  exists res w',
    calculate_trust_score (sample_env None) [review_one_star; review_five_star]
      initial_world = (Ok res, w')
    /\ TrustScore.average_rating res = 3
    /\ TrustScore.score res = 50
    /\ TrustScore.confidence res = 2 / 10.
Proof.
  eexists. eexists. split; [apply calculate_trust_score_nonempty |].
  unfold result_of_locals, locals_at, locals_of_sums.
  cbn [TrustScore.score TrustScore.confidence TrustScore.average_rating
       Locals.trust_score Locals.confidence Locals.weighted_rating
       Locals.sentiment_adjustment clock_reads initial_world
       run_sums add_review weight_sum weighted_sum sentiment_sum zero_sums
       review_one_star review_five_star comment str_truthy rating length].
  unfold review_weight.
  cbn [sample_env time_time config timestamp client_verified client_weight_of
       default_config UNVERIFIED_CLIENT_WEIGHT SENTIMENT_WEIGHT
       review_one_star review_five_star].
  rewrite !decay_factor_now.
  destruct (Rlt_dec 0 (0 + 1 * (8 / 10) + 1 * (8 / 10))) as [_ | Hn]; [| lra].
  replace ((0 + 1 * (1 * (8 / 10)) + 5 * (1 * (8 / 10)))
           / (0 + 1 * (8 / 10) + 1 * (8 / 10))) with 3 by field.
  replace (0 / (0 + 1 * (8 / 10) + 1 * (8 / 10)) * (3 / 10)) with 0 by field.
  rewrite (clamp_inside (3 + 0)) by lra.
  replace ((3 + 0 - 1) * 25) with 50 by lra.
  replace (Rmin 1 (INR 2 / 10)) with (2 / 10)
    by (unfold Rmin; simpl; destruct (Rle_dec 1 ((1 + 1) / 10)); lra).
  rewrite (round_IZR 3 2), (round_IZR 50 1).
  repeat split. apply (round_decimal _ 2 20). simpl. lra.
Qed.
End Scenarios.

(** * Further properties of the code *)

(** ** Confidence and the weighted rating *)

Section MoreScoring.
Variable env : Env.
Local Open Scope R_scope.

Lemma INR_tenth_round (n : nat) : round (INR n / 10) 2 = INR n / 10.
Proof.
  apply (round_decimal _ 2 (10 * Z.of_nat n)).
  rewrite mult_IZR, <- INR_IZR_INZ. simpl. field.
Qed.

Lemma confidence_of_count (sums : Sums) (n : nat) (d : R) :
  round (Locals.confidence (locals_of_sums env sums n d)) 2
  = if (n <=? 10)%nat then INR n / 10 else 1.
Proof.
  cbn [Locals.confidence locals_of_sums]. unfold Rmin.
  destruct (n <=? 10)%nat eqn:Hn.
  - apply Nat.leb_le in Hn. apply le_INR in Hn. simpl in Hn.
    replace (1 + 1 + 1 + 1 + 1 + 1 + 1 + 1 + 1 + 1) with 10 in Hn by lra.
    destruct (Rle_dec 1 (INR n / 10)) as [Hge | _].
    + assert (Heq : INR n / 10 = 1) by lra. rewrite Heq. apply (round_IZR 1).
    + apply INR_tenth_round.
  - apply Nat.leb_gt in Hn. apply lt_INR in Hn. simpl in Hn.
    replace (1 + 1 + 1 + 1 + 1 + 1 + 1 + 1 + 1 + 1) with 10 in Hn by lra.
    destruct (Rle_dec 1 (INR n / 10)) as [_ | Hlt]; [apply (round_IZR 1) | lra].
Qed.

Lemma add_review_rating_between (lo hi : Z) (now : Z) (acc : Sums) (r : Review) :
  weights_positive (config env) ->
  (lo <= rating r <= hi)%Z ->
  rating_sums_between lo hi acc ->
  rating_sums_between lo hi (add_review env now acc r)
  /\ weight_sum acc < weight_sum (add_review env now acc r).
Proof.
  intros Hweights [Hlo Hhi] (Hw & Hl & Hh).
  pose proof (review_weight_pos env Hweights now r) as Hpos.
  apply IZR_le in Hlo, Hhi.
  unfold rating_sums_between, add_review. simpl.
  repeat split; nra.
Qed.

Lemma run_sums_rating_between (lo hi : Z) (reviews : list Review) (k : nat) (acc : Sums) :
  weights_positive (config env) ->
  (forall r, In r reviews -> (lo <= rating r <= hi)%Z) ->
  rating_sums_between lo hi acc ->
  rating_sums_between lo hi (run_sums env k reviews acc)
  /\ (reviews <> [] -> 0 < weight_sum (run_sums env k reviews acc)).
Proof.
  intros Hweights. revert k acc.
  induction reviews as [| r rs IH]; intros k acc Hr Hacc.
  - simpl. split; [exact Hacc | congruence].
  - cbn [run_sums].
    destruct (add_review_rating_between lo hi (time_time env k) acc r Hweights
                (Hr r (or_introl eq_refl)) Hacc) as [Hok Hlt].
    destruct (IH (S k) _ (fun r' Hin => Hr r' (or_intror Hin)) Hok) as [Hok' Hpos].
    split; [exact Hok' | intros _].
    destruct rs as [| r' rs'].
    + cbn [run_sums]. destruct Hacc as (Hw & _). lra.
    + apply Hpos. discriminate.
Qed.

Lemma zero_sums_rating_between (lo hi : Z) : rating_sums_between lo hi zero_sums.
Proof. unfold rating_sums_between, zero_sums. simpl. lra. Qed.

(** With positive weights the fallback rating 3 is never used on a
    non-empty input, and the weighted rating lies between the bounds of
    the ratings. *)
Lemma weighted_rating_between (lo hi : Z) (reviews : list Review) (k : nat) :
  weights_positive (config env) ->
  reviews <> [] ->
  (forall r, In r reviews -> (lo <= rating r <= hi)%Z) ->
  let sums := run_sums env k reviews zero_sums in
  0 < weight_sum sums
  /\ Locals.weighted_rating (locals_at env k reviews) = weighted_sum sums / weight_sum sums
  /\ IZR lo <= Locals.weighted_rating (locals_at env k reviews) <= IZR hi.
Proof.
  intros Hweights Hne Hr sums.
  destruct (run_sums_rating_between lo hi reviews k zero_sums Hweights Hr
              (zero_sums_rating_between lo hi)) as [(Hw & Hl & Hh) Hpos].
  specialize (Hpos Hne). fold sums in Hw, Hl, Hh, Hpos.
  split; [exact Hpos |].
  unfold locals_at, locals_of_sums. cbn [Locals.weighted_rating]. fold sums.
  destruct (Rlt_dec 0 (weight_sum sums)) as [_ | Hn]; [| contradiction].
  split; [reflexivity |].
  split.
  - apply (Rmult_le_reg_r (weight_sum sums)); [exact Hpos |].
    unfold Rdiv. rewrite Rmult_assoc, Rinv_l by lra. lra.
  - apply (Rmult_le_reg_r (weight_sum sums)); [exact Hpos |].
    unfold Rdiv. rewrite Rmult_assoc, Rinv_l by lra. lra.
Qed.
End MoreScoring.




(** ** Order of the reviews, unanimous ratings, comments without a model *)

Section MoreAggregation.
Variable env : Env.
Local Open Scope R_scope.

Lemma Sums_eq (a b : Sums) :
  weighted_sum a = weighted_sum b -> weight_sum a = weight_sum b ->
  sentiment_sum a = sentiment_sum b -> a = b.
Proof. destruct a, b. simpl. intros -> -> ->. reflexivity. Qed.

Lemma add_review_swap (now : Z) (acc : Sums) (x y : Review) :
  add_review env now (add_review env now acc x) y
  = add_review env now (add_review env now acc y) x.
Proof.
  apply Sums_eq; unfold add_review; simpl; try ring.
  destruct (str_truthy (comment x)); destruct (str_truthy (comment y)); ring.
Qed.

(** With a clock that stands still the loops are plain folds. *)
Lemma run_sums_still (c : Z) (reviews : list Review) (k : nat) (acc : Sums) :
  (forall j, time_time env j = c) ->
  run_sums env k reviews acc = fold_left (add_review env c) reviews acc.
Proof.
  intros Hc. revert k acc. induction reviews as [| r rs IH]; intros k acc; simpl.
  - reflexivity.
  - rewrite Hc. apply IH.
Qed.

Lemma run_decay_total_still (c : Z) (reviews : list Review) (k : nat) (acc : R) :
  (forall j, time_time env j = c) ->
  run_decay_total env k reviews acc
  = fold_left (fun a r => a + decay_factor (config env) c (timestamp r)) reviews acc.
Proof.
  intros Hc. revert k acc. induction reviews as [| r rs IH]; intros k acc; simpl.
  - reflexivity.
  - rewrite Hc. apply IH.
Qed.

Lemma fold_add_review_perm (c : Z) (l l' : list Review) :
  l ≡ₚ l' ->
  forall acc, fold_left (add_review env c) l acc = fold_left (add_review env c) l' acc.
Proof.
  induction 1 as [| x l l' _ IH | x y l | l l' l'' _ IH1 _ IH2]; intros acc; simpl.
  - reflexivity.
  - apply IH.
  - now rewrite add_review_swap.
  - now rewrite IH1.
Qed.

Lemma fold_decay_perm (c : Z) (l l' : list Review) :
  l ≡ₚ l' ->
  forall acc,
    fold_left (fun a r => a + decay_factor (config env) c (timestamp r)) l acc
    = fold_left (fun a r => a + decay_factor (config env) c (timestamp r)) l' acc.
Proof.
  induction 1 as [| x l l' _ IH | x y l | l l' l'' _ IH1 _ IH2]; intros acc; simpl.
  - reflexivity.
  - apply IH.
  - f_equal. ring.
  - now rewrite IH1.
Qed.

Lemma locals_at_perm (c : Z) (k : nat) (l l' : list Review) :
  (forall j, time_time env j = c) -> l ≡ₚ l' ->
  locals_at env k l = locals_at env k l'.
Proof.
  intros Hc Hperm. unfold locals_at.
  rewrite !(run_sums_still c), !(run_decay_total_still c) by exact Hc.
  rewrite (fold_add_review_perm c l l' Hperm), (fold_decay_perm c l l' Hperm).
  now rewrite (Permutation_length Hperm).
Qed.

(** Reviews without comments leave the sentiment sum alone. *)
Lemma run_sums_no_comments (reviews : list Review) (k : nat) (acc : Sums) :
  (forall r, In r reviews -> comment r = EmptyString) ->
  sentiment_sum (run_sums env k reviews acc) = sentiment_sum acc.
Proof.
  revert k acc. induction reviews as [| r rs IH]; intros k acc Hc; simpl.
  - reflexivity.
  - rewrite IH by (intros r' Hin; apply Hc; now right).
    unfold add_review. simpl. now rewrite (Hc r (or_introl eq_refl)).
Qed.

(** Without a model every polarity is 0. *)
Lemma polarity_no_model (text : string) :
  sentiment_analyzer env = None -> polarity env text = 0.
Proof.
  intros Hnone. unfold polarity.
  now rewrite (analyze_sentiment_no_model env text initial_world Hnone).
Qed.

Lemma add_review_strip (now : Z) (acc : Sums) (r : Review) :
  sentiment_analyzer env = None ->
  add_review env now acc (strip_comment r) = add_review env now acc r.
Proof.
  intros Hnone. apply Sums_eq; unfold add_review, review_weight; simpl; try reflexivity.
  destruct (str_truthy (comment r)); [| reflexivity].
  rewrite (polarity_no_model _ Hnone). ring.
Qed.

Lemma run_sums_strip (reviews : list Review) (k : nat) (acc : Sums) :
  sentiment_analyzer env = None ->
  run_sums env k (map strip_comment reviews) acc = run_sums env k reviews acc.
Proof.
  intros Hnone. revert k acc. induction reviews as [| r rs IH]; intros k acc; simpl.
  - reflexivity.
  - now rewrite add_review_strip, IH.
Qed.

Lemma run_decay_total_strip (reviews : list Review) (k : nat) (acc : R) :
  run_decay_total env k (map strip_comment reviews) acc = run_decay_total env k reviews acc.
Proof.
  revert k acc. induction reviews as [| r rs IH]; intros k acc; simpl.
  - reflexivity.
  - now rewrite IH.
Qed.
End MoreAggregation.







(** ** Decay per time unit; what the adapter looks at and returns *)


Section MoreAdapter.
Variable env : Env.

Lemma substring_truthy (n : nat) (s : string) :
  str_truthy (substring 0 (S n) s) = str_truthy s.
Proof. destruct s; reflexivity. Qed.

Lemma polarity_of_prefix (t1 t2 : string) :
  substring 0 512 t1 = substring 0 512 t2 -> polarity env t1 = polarity env t2.
Proof.
  intros Hprefix.
  assert (Htruthy : str_truthy t1 = str_truthy t2).
  { pose proof (substring_truthy 511 t1) as H1.
    pose proof (substring_truthy 511 t2) as H2.
    change (S 511) with 512%nat in H1, H2. congruence. }
  unfold polarity, analyze_sentiment, bind, record_sentiment_call.
  destruct (sentiment_analyzer env) as [analyzer |]; [| reflexivity].
  rewrite Htruthy. destruct (str_truthy t2); [| reflexivity].
  cbn [negb]. unfold try_except, bind, lift, first_item. rewrite Hprefix.
  destruct (analyzer (substring 0 512 t2)) as [[| first others] | e];
    try reflexivity.
  cbn [ret]. now destruct (String.eqb (pred_label first) "POSITIVE").
Qed.

Lemma polarity_of_prediction
    (analyzer : string -> Exc (list Prediction)) (text : string)
    (first : Prediction) (others : list Prediction) :
  sentiment_analyzer env = Some analyzer ->
  str_truthy text = true ->
  analyzer (substring 0 512 text) = Ok (first :: others) ->
  polarity env text
  = if String.eqb (pred_label first) "POSITIVE"
    then pred_score first else (- pred_score first)%R.
Proof.
  intros Han Htext Hcall.
  unfold polarity, analyze_sentiment, bind, record_sentiment_call.
  rewrite Han, Htext. cbn [negb]. unfold try_except, bind, lift, first_item.
  rewrite Hcall. cbn [fst ret].
  now destruct (String.eqb (pred_label first) "POSITIVE").
Qed.
End MoreAdapter.

(** X7: the adapter looks at the first 512 characters of a text only: two
    texts with the same first 512 characters get the same polarity. *)
Theorem analyze_sentiment_reads_prefix (env : Env) (t1 t2 : string) (w1 w2 : World) :
  substring 0 512 t1 = substring 0 512 t2 ->
  exists v : R,
    analyze_sentiment env t1 w1 = (Ok v, note_call t1 w1)
    /\ analyze_sentiment env t2 w2 = (Ok v, note_call t2 w2).
Proof.
  intros Hprefix. exists (polarity env t1).
  split; [apply analyze_sentiment_run |].
  rewrite (polarity_of_prefix env t1 t2 Hprefix). apply analyze_sentiment_run.
Qed.

Lemma analyze_sentiment_reads_prefix_witness :
  exists v : R,
    analyze_sentiment (sample_env (Some first_char_pipeline)) long_text_x initial_world
    = (Ok v, note_call long_text_x initial_world)
    /\ analyze_sentiment (sample_env (Some first_char_pipeline)) long_text_y initial_world
       = (Ok v, note_call long_text_y initial_world).
Proof.
  apply (analyze_sentiment_reads_prefix (sample_env (Some first_char_pipeline))
           long_text_x long_text_y initial_world initial_world).
  vm_compute. reflexivity.
Defined.

(** X8: when the pipeline returns predictions whose scores are
    probabilities, the adapter returns a polarity in [-1, 1]; for a
    non-empty text it is the score of the first prediction if its label is
    POSITIVE and the negated score for any other label, the further
    predictions being ignored. *)
Theorem analyze_sentiment_range_and_sign (env : Env) (text : string) (w : World) :
  pipeline_scores_in_unit env ->
  exists v : R,
    analyze_sentiment env text w = (Ok v, note_call text w)
    /\ (-1 <= v <= 1)%R
    /\ (forall analyzer first others,
          sentiment_analyzer env = Some analyzer ->
          str_truthy text = true ->
          analyzer (substring 0 512 text) = Ok (first :: others) ->
          v = if String.eqb (pred_label first) "POSITIVE"
              then pred_score first else (- pred_score first)%R).
Proof.
  intros Hpipe. exists (polarity env text).
  split; [apply analyze_sentiment_run |].
  split; [now apply polarity_bounds |].
  intros analyzer first others. apply polarity_of_prediction.
Qed.

Lemma first_char_pipeline_in_unit :
  pipeline_scores_in_unit (sample_env (Some first_char_pipeline)).
Proof.
  intros analyzer text predictions Han Hcall. simpl in Han. injection Han as <-.
  unfold first_char_pipeline in Hcall.
  destruct text as [| c rest].
  - injection Hcall as <-. constructor; [simpl; lra | constructor].
  - destruct (Ascii.ascii_dec c "a"%char) as [-> | Hne].
    + injection Hcall as <-. constructor; [simpl; lra | constructor].
    + assert (Hneg : predictions = [ {| pred_label := "NEGATIVE"; pred_score := 8 / 10 |} ]).
      { destruct c as [[] [] [] [] [] [] [] []]; try (injection Hcall as <-; reflexivity).
        exfalso. apply Hne. reflexivity. }
      subst predictions. constructor; [simpl; lra | constructor].
Qed.

Lemma analyze_sentiment_range_and_sign_witness :
  exists v : R,
    analyze_sentiment (sample_env (Some first_char_pipeline)) "bad work" initial_world
    = (Ok v, note_call "bad work" initial_world)
    /\ (-1 <= v <= 1)%R
    /\ v = (- (8 / 10))%R.
Proof.
  destruct (analyze_sentiment_range_and_sign (sample_env (Some first_char_pipeline))
              "bad work" initial_world first_char_pipeline_in_unit)
    as (v & Hrun & Hrange & Hsign).
  exists v. split; [exact Hrun |]. split; [exact Hrange |].
  apply (Hsign first_char_pipeline
           {| pred_label := "NEGATIVE"; pred_score := 8 / 10 |} []); reflexivity.
Defined.

(** ** More on the merge *)

Section MoreMerge.
Implicit Types (seen : gset string) (r : Review) (p s : list Review).

Lemma keep_unseen_clients seen s :
  seen ∪ list_to_set (client_address <$> keep_unseen seen s)
  = seen ∪ list_to_set (client_address <$> s).
Proof.
  revert seen. induction s as [| r s IH]; intros seen; simpl; [reflexivity |].
  destruct (bool_decide (client_address r ∈ seen)) eqn:Hdec.
  - apply bool_decide_eq_true in Hdec. rewrite IH. set_solver.
  - simpl. specialize (IH (seen ∪ {[ client_address r ]})). set_solver.
Qed.

Lemma keep_unseen_app seen (s1 s2 : list Review) :
  keep_unseen seen (s1 ++ s2)
  = keep_unseen seen s1
    ++ keep_unseen (seen ∪ list_to_set (client_address <$> keep_unseen seen s1)) s2.
Proof.
  revert seen. induction s1 as [| r s1 IH]; intros seen; simpl.
  - f_equal. apply set_eq. intros c. set_solver.
  - destruct (bool_decide (client_address r ∈ seen)); [apply IH |].
    simpl. rewrite IH. do 3 f_equal. apply set_eq. intros c. set_solver.
Qed.

Lemma keep_unseen_all_seen seen s :
  (forall r, r ∈ s -> client_address r ∈ seen) -> keep_unseen seen s = [].
Proof.
  induction s as [| r s IH]; intros Hseen; simpl; [reflexivity |].
  rewrite bool_decide_eq_true_2 by (apply Hseen, list_elem_of_here).
  apply IH. intros r' Hin. apply Hseen. now apply list_elem_of_further.
Qed.

Lemma keep_unseen_NoDup_id seen s :
  NoDup (client_address <$> s) ->
  (forall r, r ∈ s -> client_address r ∉ seen) ->
  keep_unseen seen s = s.
Proof.
  revert seen. induction s as [| r s IH]; intros seen Hnd Hfresh; simpl; [reflexivity |].
  rewrite fmap_cons in Hnd. apply NoDup_cons in Hnd as [Hnotin Hnd].
  rewrite bool_decide_eq_false_2 by (apply Hfresh, list_elem_of_here).
  f_equal. apply IH; [exact Hnd |].
  intros r' Hin Hseen. apply elem_of_union in Hseen as [Hseen | Heq].
  - apply (Hfresh r'); [now apply list_elem_of_further | exact Hseen].
  - apply elem_of_singleton in Heq. apply Hnotin. rewrite <- Heq.
    apply list_elem_of_fmap. now exists r'.
Qed.

Lemma keep_unseen_length seen s :
  length (keep_unseen seen s)
  = size (list_to_set (client_address <$> s) ∖ seen : gset string).
Proof.
  revert seen. induction s as [| r s IH]; intros seen.
  - simpl. replace (∅ ∖ seen) with (∅ : gset string) by set_solver.
    now rewrite size_empty.
  - cbn [keep_unseen]. rewrite fmap_cons, list_to_set_cons.
    destruct (bool_decide (client_address r ∈ seen)) eqn:Hdec.
    + apply bool_decide_eq_true in Hdec. rewrite IH. f_equal.
      generalize (list_to_set (client_address <$> s) : gset string). intros X.
      apply set_eq. intros c. set_solver.
    + apply bool_decide_eq_false in Hdec. cbn [length]. rewrite IH.
      generalize (list_to_set (client_address <$> s) : gset string). intros X.
      assert (Hsplit : ({[client_address r]} ∪ X) ∖ seen
                       = {[client_address r]} ∪ X ∖ (seen ∪ {[client_address r]})).
      { apply set_eq. intros c. destruct (decide (c = client_address r)); set_solver. }
      rewrite Hsplit.
      rewrite (size_union (C:=gset string) {[client_address r]}
                 (X ∖ (seen ∪ {[client_address r]}))) by set_solver.
      now rewrite size_singleton.
Qed.
End MoreMerge.

(** X9: the merge loses no client: the clients of the merged list are
    exactly the clients of the blockchain list together with the clients
    of the API list. *)
Theorem combine_reviews_clients (p s : list Review) :
  (list_to_set (client_address <$> combine_reviews p s) : gset string)
  = list_to_set (client_address <$> p) ∪ list_to_set (client_address <$> s).
Proof.
  rewrite combine_reviews_run, fmap_app, list_to_set_app_L.
  apply keep_unseen_clients.
Qed.

(** X10: how merges compose. Merging with an empty API list returns the
    blockchain list; merging the result with a further list is merging
    with both API lists one after the other; merging the result with the
    same API list again, or de-duplicating a de-duplicated list, changes
    nothing. *)
Theorem combine_reviews_compose (p s s' : list Review) :
  combine_reviews p [] = p
  /\ combine_reviews (combine_reviews p s) s' = combine_reviews p (s ++ s')
  /\ combine_reviews (combine_reviews p s) s = combine_reviews p s
  /\ combine_reviews [] (combine_reviews [] s) = combine_reviews [] s.
Proof.
  assert (Hseq : forall q t t',
             combine_reviews (combine_reviews q t) t' = combine_reviews q (t ++ t')).
  { intros q t t'. rewrite !combine_reviews_run, keep_unseen_app, <- app_assoc.
    do 2 f_equal. rewrite fmap_app, list_to_set_app_L. reflexivity. }
  split; [rewrite combine_reviews_run; simpl; apply app_nil_r |].
  split; [apply Hseq |].
  split.
  - rewrite Hseq, !combine_reviews_run, keep_unseen_app.
    set (seen := list_to_set (client_address <$> p) : gset string).
    rewrite (keep_unseen_all_seen
               (seen ∪ list_to_set (client_address <$> keep_unseen seen s)) s);
      [now rewrite app_nil_r |].
    intros r Hin. rewrite keep_unseen_clients.
    apply elem_of_union_r, elem_of_list_to_set, list_elem_of_fmap. now exists r.
  - rewrite !combine_reviews_run. simpl. apply keep_unseen_NoDup_id.
    + apply keep_unseen_NoDup.
    + intros r _. set_solver.
Qed.

(** X11: the merged list is a sublist of the concatenation of the two
    sources, which is what the analysis view works on; it holds the
    blockchain reviews and one review for each client of the API list
    that is not a blockchain client. *)
Theorem combine_reviews_size (p s : list Review) :
  combine_reviews p s `sublist_of` p ++ s
  /\ length (combine_reviews p s)
     = (length p
        + size (list_to_set (client_address <$> s)
                ∖ list_to_set (client_address <$> p) : gset string))%nat
  /\ (length p <= length (combine_reviews p s) <= length p + length s)%nat.
Proof.
  rewrite combine_reviews_run.
  pose proof (keep_unseen_sublist (list_to_set (client_address <$> p)) s) as Hsub.
  split; [apply sublist_app; [reflexivity | exact Hsub] |].
  rewrite length_app, keep_unseen_length. split; [reflexivity |].
  rewrite <- keep_unseen_length. apply sublist_length in Hsub. lia.
Qed.

(** ** More on the analysis view *)

Section MoreAnalysis.
Variable env : Env.
Local Open Scope R_scope.

Lemma for_each_app {A S : Type} (body : S -> A -> M S) (xs ys : list A) (acc : S) (w : World) :
  for_each body (xs ++ ys) acc w
  = bind (for_each body xs acc) (fun acc' => for_each body ys acc') w.
Proof.
  revert acc w. induction xs as [| x xs IH]; intros acc w; simpl.
  - reflexivity.
  - unfold bind. destruct (body acc x w) as [[acc' | e] w']; [| reflexivity].
    rewrite IH. reflexivity.
Qed.

(** The response for a non-empty concatenation whose dates convert. *)
Lemma analyze_reviews_run (required_api_key : option string) (address : string)
    (api_key : option string) (b a : list Review) (w : World) :
  api_key_rejected required_api_key api_key = false ->
  b ++ a <> [] ->
  (forall r, In r (b ++ a) ->
             exists dt, datetime_fromtimestamp_isoformat env (timestamp r) = Ok dt) ->
  analyze_reviews env required_api_key address api_key b a w
  = (Ok {| Response.address := address;
           Response.reviews := run_entries env (clock_reads w) (b ++ a);
           Response.analysis := Some
             {| Analysis.review_count := length (b ++ a);
                Analysis.average_rating := round (mean_rating (b ++ a)) 2;
                Analysis.average_sentiment := round (mean_sentiment env (b ++ a)) 2;
                Analysis.verified_client_percentage :=
                  round (verified_percentage (b ++ a)) 1 |} |},
     after_sentiments (b ++ a) (after_analysis (b ++ a) w)).
Proof.
  intros Hgate Hne Hdt. unfold analyze_reviews. rewrite Hgate.
  destruct (b ++ a) as [| r rs] eqn:Hcombined; [congruence |].
  set (combined := r :: rs) in *.
  rewrite (bind_ok _ _ _ _ _ (analysis_loop_run env combined [] w Hdt)).
  unfold sum_sentiment.
  rewrite (bind_ok _ _ _ _ _ (sentiment_loop_run env combined 0%R _)).
  unfold ret. f_equal. f_equal. cbn [app]. f_equal. f_equal.
  rewrite run_entries_length.
  unfold mean_rating, mean_sentiment, verified_percentage, sum_ratings, count_verified.
  rewrite sum_ratings_acc, count_verified_acc, !Z.add_0_l, <- INR_IZR_INZ, Rplus_0_l.
  reflexivity.
Qed.

Lemma sum_Z_ratings_between (lo hi : Z) (reviews : list Review) :
  (forall r, In r reviews -> (lo <= rating r <= hi)%Z) ->
  (lo * Z.of_nat (length reviews) <= sum_Z (map rating reviews)
   <= hi * Z.of_nat (length reviews))%Z.
Proof.
  induction reviews as [| r rs IH]; intros Hr.
  - simpl. lia.
  - cbn [map sum_Z fold_right length].
    specialize (IH (fun r' Hin => Hr r' (or_intror Hin))).
    specialize (Hr r (or_introl eq_refl)). fold (sum_Z (map rating rs)). lia.
Qed.

Lemma sum_R_polarity_bounds (reviews : list Review) :
  pipeline_scores_in_unit env ->
  - INR (length reviews)
  <= sum_R (map (fun r => polarity env (comment r)) reviews)
  <= INR (length reviews).
Proof.
  intros Hpipe. induction reviews as [| r rs IH].
  - simpl. lra.
  - cbn [map sum_R fold_right length]. rewrite S_INR.
    fold (sum_R (map (fun r => polarity env (comment r)) rs)).
    pose proof (polarity_bounds env (comment r) Hpipe). lra.
Qed.

Lemma filter_length_le {A : Type} (f : A -> bool) (l : list A) :
  (length (List.filter f l) <= length l)%nat.
Proof.
  induction l as [| x l IH]; simpl; [lia |]. destruct (f x); simpl; lia.
Qed.

Lemma quotient_between (x n lo hi : R) :
  0 < n -> lo * n <= x <= hi * n -> lo <= x / n <= hi.
Proof.
  intros Hn [Hlo Hhi]. split.
  - apply (Rmult_le_reg_r n); [exact Hn |].
    unfold Rdiv. rewrite Rmult_assoc, Rinv_l by lra. lra.
  - apply (Rmult_le_reg_r n); [exact Hn |].
    unfold Rdiv. rewrite Rmult_assoc, Rinv_l by lra. lra.
Qed.
End MoreAnalysis.









(** ** The review sources *)

Section MoreSources.
Variable host : Host.

Lemma make_review_ok (item : ApiItem.t) :
  item_ok item = true -> make_review item = Done (review_of_item item).
Proof.
  unfold item_ok, make_review, review_of_item, item_key.
  destruct item as [[ca |] cv [stars |] [text |] [ts |]]; simpl; try discriminate.
  intros Hvalid. unfold rating_valid. simpl. now rewrite Hvalid.
Qed.

Lemma make_review_bad (item : ApiItem.t) :
  item_ok item = false -> exists e, make_review item = Failed e.
Proof.
  unfold item_ok, make_review, item_key.
  destruct item as [[ca |] cv [stars |] [text |] [ts |]]; simpl;
    try (intros _; eexists; reflexivity).
  intros Hvalid. unfold rating_valid. simpl. rewrite Hvalid. eexists. reflexivity.
Qed.

Lemma review_of_item_valid (item : ApiItem.t) :
  item_ok item = true -> rating_valid (review_of_item item) = true.
Proof.
  unfold item_ok, review_of_item, rating_valid.
  destruct item as [[ca |] cv [stars |] [text |] [ts |]]; simpl; try discriminate.
  trivial.
Qed.

Lemma convert_items_ok (items : list ApiItem.t) (reviews : list Review) :
  forallb item_ok items = true ->
  convert_items items reviews = Done (reviews ++ map review_of_item items).
Proof.
  revert reviews. induction items as [| item rest IH]; intros reviews Hall; simpl.
  - now rewrite app_nil_r.
  - simpl in Hall. apply andb_true_iff in Hall as [Hitem Hrest].
    rewrite (make_review_ok item Hitem), (IH _ Hrest), <- app_assoc. reflexivity.
Qed.

Lemma convert_items_bad (items : list ApiItem.t) (reviews : list Review) :
  forallb item_ok items = false ->
  exists e, convert_items items reviews = Failed e.
Proof.
  revert reviews. induction items as [| item rest IH]; intros reviews Hall; simpl.
  - discriminate.
  - simpl in Hall. destruct (item_ok item) eqn:Hitem.
    + rewrite (make_review_ok item Hitem). apply IH. exact Hall.
    + destruct (make_review_bad item Hitem) as [e ->]. now exists e.
Qed.

Lemma map_review_of_item_valid (items : list ApiItem.t) :
  forallb item_ok items = true ->
  Forall (fun r => rating_valid r = true) (map review_of_item items).
Proof.
  induction items as [| item rest IH]; intros Hall; simpl; constructor.
  - simpl in Hall. apply andb_true_iff in Hall as [Hitem _].
    now apply review_of_item_valid.
  - simpl in Hall. apply andb_true_iff in Hall as [_ Hrest]. now apply IH.
Qed.

Lemma fetch_blockchain_reviews_nil (address : string) :
  fetch_blockchain_reviews host address = [].
Proof.
  unfold fetch_blockchain_reviews.
  now destruct (negb (USE_BLOCKCHAIN host) || negb (contract_truthy host)).
Qed.

Lemma fetch_api_reviews_valid (address : string) :
  Forall (fun r => rating_valid r = true) (fetch_api_reviews host address).
Proof.
  unfold fetch_api_reviews.
  destruct (http_get host (reviews_url host address)) as [response | e]; [| constructor].
  destruct (HttpResponse.status_code response =? 200); [| constructor].
  destruct (HttpResponse.json response) as [body | e]; [| constructor].
  destruct (forallb item_ok (body_items body)) eqn:Hall.
  - rewrite (convert_items_ok _ [] Hall). simpl. now apply map_review_of_item_valid.
  - destruct (convert_items_bad _ [] Hall) as [e ->]. constructor.
Qed.
End MoreSources.

(** X16: a response with status 200 is taken whole or not at all: when
    every item has its four required keys and a rating from 1 to 5, the
    fetch returns one review per item, in order, with [clientVerified]
    defaulting to false; when a single item lacks a key or has a rating
    out of range, the fetch returns the empty list and the good items are
    lost with it. *)
Theorem fetch_api_reviews_all_or_nothing
    (host : Host) (address : string) (response : HttpResponse.t) (body : ApiBody.t) :
  http_get host (reviews_url host address) = Done response ->
  HttpResponse.status_code response = 200 ->
  HttpResponse.json response = Done body ->
  fetch_api_reviews host address
  = if forallb item_ok (body_items body)
    then map review_of_item (body_items body)
    else [].
Proof.
  intros Hget Hstatus Hjson. unfold fetch_api_reviews.
  rewrite Hget, Hstatus, Hjson. simpl.
  destruct (forallb item_ok (body_items body)) eqn:Hall.
  - now rewrite (convert_items_ok _ [] Hall).
  - now destruct (convert_items_bad _ [] Hall) as [e ->].
Qed.

Lemma fetch_api_reviews_all_or_nothing_witness :
  fetch_api_reviews (sample_host [item_x; item_six_stars; item_y]) "0xF0" = []
  /\ fetch_api_reviews (sample_host [item_x; item_y]) "0xF0"
     = [review_of_item item_x; review_of_item item_y].
Proof.
  split.
  - apply (fetch_api_reviews_all_or_nothing (sample_host [item_x; item_six_stars; item_y])
             "0xF0"
             {| HttpResponse.status_code := 200;
                HttpResponse.json :=
                  Done {| ApiBody.data := Some (Some [item_x; item_six_stars; item_y]) |} |}
             {| ApiBody.data := Some (Some [item_x; item_six_stars; item_y]) |});
      reflexivity.
  - apply (fetch_api_reviews_all_or_nothing (sample_host [item_x; item_y])
             "0xF0"
             {| HttpResponse.status_code := 200;
                HttpResponse.json := Done {| ApiBody.data := Some (Some [item_x; item_y]) |} |}
             {| ApiBody.data := Some (Some [item_x; item_y]) |});
      reflexivity.
Defined.

(** X17: whatever the API does, the fetch raises nothing and returns only
    reviews with a rating from 1 to 5; it returns the empty list when the
    request fails, when the status is not 200, when the body does not
    decode and when the body has no [data] or no [reviews] key. The
    blockchain fetch returns the empty list in every case. *)
Theorem fetch_reviews_safe (host : Host) (address : string) :
  Forall (fun r => rating_valid r = true) (fetch_api_reviews host address)
  /\ (forall e, http_get host (reviews_url host address) = Failed e ->
                fetch_api_reviews host address = [])
  /\ (forall response,
        http_get host (reviews_url host address) = Done response ->
        HttpResponse.status_code response <> 200
        \/ (exists e, HttpResponse.json response = Failed e)
        \/ HttpResponse.json response = Done {| ApiBody.data := None |}
        \/ HttpResponse.json response = Done {| ApiBody.data := Some None |} ->
        fetch_api_reviews host address = [])
  /\ fetch_blockchain_reviews host address = [].
Proof.
  split; [apply fetch_api_reviews_valid |].
  split; [| split; [| apply fetch_blockchain_reviews_nil]].
  - intros e Hget. unfold fetch_api_reviews. now rewrite Hget.
  - intros response Hget Hcases. unfold fetch_api_reviews. rewrite Hget.
    destruct Hcases as [Hstatus | [[e Hjson] | [Hjson | Hjson]]].
    + apply Z.eqb_neq in Hstatus. now rewrite Hstatus.
    + rewrite Hjson. now destruct (HttpResponse.status_code response =? 200).
    + rewrite Hjson. now destruct (HttpResponse.status_code response =? 200).
    + rewrite Hjson. now destruct (HttpResponse.status_code response =? 200).
Qed.

Lemma fetch_reviews_safe_witness :
  fetch_api_reviews offline_host "0xF0" = [].
Proof.
  destruct (fetch_reviews_safe offline_host "0xF0") as (_ & Hfail & _ & _).
  apply (Hfail (TransportError "connection refused")). reflexivity.
Defined.

(** ** The scoring endpoint *)

Section MoreEndpoint.
Variable env : Env.
Variable host : Host.

Lemma cache_key_inj (a b : string) : cache_key a = cache_key b -> a = b.
Proof. unfold cache_key. simpl. intros H. now injection H. Qed.

(** The list the endpoint scores: the API reviews, the first one of each
    client. *)
Lemma scored_reviews_run (address : string) :
  combine_reviews (fetch_blockchain_reviews host address) (fetch_api_reviews host address)
  = keep_unseen ∅ (fetch_api_reviews host address).
Proof.
  rewrite fetch_blockchain_reviews_nil, combine_reviews_run. reflexivity.
Qed.

Lemma calculate_trust_score_ok (reviews : list Review) (w : World) :
  exists res w',
    calculate_trust_score env reviews w = (Ok res, w')
    /\ TrustScore.review_count res = length reviews.
Proof.
  destruct reviews as [| r rs].
  - eexists. eexists. split; [apply calculate_trust_score_nil | reflexivity].
  - eexists. eexists. split; [apply calculate_trust_score_nonempty | reflexivity].
Qed.

Lemma compute_and_store_run (address : string) (redis : Redis) (w : World) :
  exists res w',
    calculate_trust_score env (keep_unseen ∅ (fetch_api_reviews host address)) w
    = (Ok res, w')
    /\ TrustScore.review_count res
       = length (keep_unseen ∅ (fetch_api_reviews host address))
    /\ compute_and_store env host address redis w
       = (Computed address res,
          if USE_REDIS host
          then <[ cache_key address := (json_dumps host address res, CACHE_TTL host) ]> redis
          else redis,
          w').
Proof.
  destruct (calculate_trust_score_ok (keep_unseen ∅ (fetch_api_reviews host address)) w)
    as (res & w' & Hrun & Hcount).
  exists res, w'. split; [exact Hrun |]. split; [exact Hcount |].
  unfold compute_and_store. rewrite scored_reviews_run, Hrun. reflexivity.
Qed.

Lemma get_trust_score_miss (address : string) (force_refresh : bool)
    (api_key : option string) (redis : Redis) (w : World) :
  api_key_rejected (REQUIRED_API_KEY host) api_key = false ->
  USE_REDIS host = false \/ force_refresh = true
  \/ redis_hit redis (cache_key address) = None ->
  get_trust_score env host address force_refresh api_key redis w
  = compute_and_store env host address redis w.
Proof.
  intros Hgate Hmiss. unfold get_trust_score. rewrite Hgate.
  destruct Hmiss as [-> | [-> | ->]]; [reflexivity | |].
  - now rewrite andb_false_r.
  - now destruct (USE_REDIS host && negb force_refresh).
Qed.

Lemma get_trust_score_hit (address : string) (api_key : option string)
    (payload : string) (ttl : Z) (redis : Redis) (w : World) :
  api_key_rejected (REQUIRED_API_KEY host) api_key = false ->
  USE_REDIS host = true ->
  redis !! cache_key address = Some (payload, ttl) ->
  str_truthy payload = true ->
  json_parses host payload = true ->
  get_trust_score env host address false api_key redis w
  = (FromCache payload, redis, w).
Proof.
  intros Hgate Hredis Hentry Hpayload Hparse. unfold get_trust_score, redis_hit.
  rewrite Hgate, Hredis, Hentry. cbn [andb negb]. rewrite Hpayload, Hparse. reflexivity.
Qed.
End MoreEndpoint.

(** The scoring endpoint turns away a request with a missing or wrong key
    when a non-empty key is required: it raises the HTTP error 401 and
    leaves the cache and the world as they were. *)
Lemma get_trust_score_gate
    (env : Env) (host : Host) (address : string) (force_refresh : bool)
    (api_key : option string) (redis : Redis) (w : World) :
  api_key_rejected (REQUIRED_API_KEY host) api_key = true ->
  get_trust_score env host address force_refresh api_key redis w
  = (Raised (HTTPException 401 "Invalid or missing API key"), redis, w).
Proof. intros Hrej. unfold get_trust_score. now rewrite Hrej. Qed.

Lemma get_trust_score_gate_witness :
  get_trust_score (sample_env None) (sample_host [item_x]) "0xF0" false None
    warm_redis initial_world
  = (Raised (HTTPException 401 "Invalid or missing API key"), warm_redis, initial_world).
Proof.
  apply (get_trust_score_gate (sample_env None) (sample_host [item_x]) "0xF0" false None
           warm_redis initial_world).
  reflexivity.
Defined.

(** X18: with Redis in use and no forced refresh, a non-empty cached
    payload that decodes is the answer: nothing is fetched or computed,
    the adapter is not called, the clock is not read and the cache is not
    written. A cached payload that does not decode makes the endpoint
    fail instead of recomputing. *)
Theorem get_trust_score_cached
    (env : Env) (host : Host) (address : string) (api_key : option string)
    (payload : string) (ttl : Z) (redis : Redis) (w : World) :
  api_key_rejected (REQUIRED_API_KEY host) api_key = false ->
  USE_REDIS host = true ->
  redis !! cache_key address = Some (payload, ttl) ->
  str_truthy payload = true ->
  get_trust_score env host address false api_key redis w
  = (if json_parses host payload then FromCache payload else HostFailed JSONDecodeError,
     redis, w).
Proof.
  intros Hgate Hredis Hentry Hpayload. unfold get_trust_score, redis_hit.
  rewrite Hgate, Hredis, Hentry. cbn [andb negb]. rewrite Hpayload.
  now destruct (json_parses host payload).
Qed.

Lemma get_trust_score_cached_witness :
  get_trust_score (sample_env None) (sample_host [item_x]) "0xF0" false (Some "secret")
    warm_redis initial_world
  = (FromCache "{cached score}", warm_redis, initial_world).
Proof.
  apply (get_trust_score_cached (sample_env None) (sample_host [item_x]) "0xF0"
           (Some "secret") "{cached score}" 3600 warm_redis initial_world);
    reflexivity.
Defined.





(** ** Monotonicity of the result *)

Section Monotone.
Local Open Scope R_scope.

Lemma Int_part_mono (x y : R) : x <= y -> (Int_part x <= Int_part y)%Z.
Proof.
  intros Hxy. destruct (Int_part_bounds x) as [Hx _].
  destruct (Int_part_bounds y) as [_ Hy].
  assert (Hlt : (Int_part x < Int_part y + 1)%Z) by (apply lt_IZR; rewrite plus_IZR; lra).
  lia.
Qed.

Lemma round_half_even_mono (x y : R) :
  x <= y -> (round_half_even x <= round_half_even y)%Z.
Proof.
  intros Hxy. pose proof (Int_part_mono x y Hxy) as Hf.
  destruct (Z.eq_dec (Int_part x) (Int_part y)) as [Heq | Hne].
  - unfold round_half_even. rewrite <- Heq.
    destruct (Rlt_dec (x - IZR (Int_part x)) (1 / 2)) as [Hx1 | Hx1];
      destruct (Rlt_dec (y - IZR (Int_part x)) (1 / 2)) as [Hy1 | Hy1];
      destruct (Rlt_dec (1 / 2) (x - IZR (Int_part x))) as [Hx2 | Hx2];
      destruct (Rlt_dec (1 / 2) (y - IZR (Int_part x))) as [Hy2 | Hy2];
      destruct (Z.even (Int_part x)); try lia; try lra.
  - destruct (round_half_even_cases x) as [Hx | [Hx _]];
      pose proof (round_half_even_lb y (Int_part y)
                    (proj1 (Int_part_bounds y))); lia.
Qed.

Lemma round_mono (x y : R) (n : nat) : x <= y -> round x n <= round y n.
Proof.
  intros Hxy. pose proof (pow10_pos n) as Hp. unfold round.
  apply Rmult_le_compat_r; [left; now apply Rinv_0_lt_compat |].
  apply IZR_le, round_half_even_mono. nra.
Qed.

Lemma clamp_mono (x y : R) : x <= y -> Rmin 5 (Rmax 1 x) <= Rmin 5 (Rmax 1 y).
Proof.
  intros Hxy. unfold Rmin, Rmax.
  destruct (Rle_dec 1 x); destruct (Rle_dec 1 y);
    repeat match goal with |- context [Rle_dec ?a ?b] => destruct (Rle_dec a b) end; lra.
Qed.

Variable env : Env.
Hypothesis Hweights : weights_positive (config env).

Lemma add_review_rated_up (now : Z) (acc acc' : Sums) (r r' : Review) :
  rated_up r r' ->
  weighted_sum acc <= weighted_sum acc' ->
  weight_sum acc = weight_sum acc' ->
  sentiment_sum acc = sentiment_sum acc' ->
  weighted_sum (add_review env now acc r) <= weighted_sum (add_review env now acc' r')
  /\ weight_sum (add_review env now acc r) = weight_sum (add_review env now acc' r')
  /\ sentiment_sum (add_review env now acc r) = sentiment_sum (add_review env now acc' r').
Proof.
  intros (Hv & Hc & Ht & Hr) Hws Hw Hs.
  pose proof (review_weight_pos env Hweights now r) as Hpos.
  assert (Hweight : review_weight env now r = review_weight env now r').
  { unfold review_weight. now rewrite Hv, Ht. }
  apply IZR_le in Hr.
  unfold add_review. simpl. rewrite <- Hweight, <- Hc, Hw, Hs.
  repeat split. nra.
Qed.

Lemma run_sums_rated_up (reviews reviews' : list Review) :
  Forall2 rated_up reviews reviews' ->
  forall (k : nat) (acc acc' : Sums),
    weighted_sum acc <= weighted_sum acc' ->
    weight_sum acc = weight_sum acc' ->
    sentiment_sum acc = sentiment_sum acc' ->
    weighted_sum (run_sums env k reviews acc) <= weighted_sum (run_sums env k reviews' acc')
    /\ weight_sum (run_sums env k reviews acc) = weight_sum (run_sums env k reviews' acc')
    /\ sentiment_sum (run_sums env k reviews acc)
       = sentiment_sum (run_sums env k reviews' acc').
Proof.
  induction 1 as [| r r' rs rs' Hr _ IH]; intros k acc acc' Hws Hw Hs.
  - simpl. auto.
  - cbn [run_sums].
    destruct (add_review_rated_up (time_time env k) acc acc' r r' Hr Hws Hw Hs)
      as (Hws' & Hw' & Hs').
    now apply IH.
Qed.

Lemma run_decay_total_rated_up (reviews reviews' : list Review) :
  Forall2 rated_up reviews reviews' ->
  forall (k : nat) (acc : R),
    run_decay_total env k reviews acc = run_decay_total env k reviews' acc.
Proof.
  induction 1 as [| r r' rs rs' (_ & _ & Ht & _) _ IH]; intros k acc.
  - reflexivity.
  - cbn [run_decay_total]. rewrite Ht. apply IH.
Qed.

Lemma run_decay_total_newer (reviews reviews' : list Review) :
  0 <= TIME_DECAY_FACTOR (config env) ->
  Forall2 (fun r r' => (timestamp r <= timestamp r')%Z) reviews reviews' ->
  forall (k : nat) (acc acc' : R),
    acc <= acc' ->
    run_decay_total env k reviews acc <= run_decay_total env k reviews' acc'.
Proof.
  intros Hl. induction 1 as [| r r' rs rs' Ht _ IH]; intros k acc acc' Hacc.
  - exact Hacc.
  - cbn [run_decay_total]. apply IH.
    pose proof (decay_factor_mono (config env) (time_time env k) _ _ Hl Ht). lra.
Qed.
End Monotone.




